(** * Checkend browser SDK: the notice delivery pipeline

    A shallow embedding of [src/configuration.ts], [src/notice.ts],
    [src/client.ts], [src/index.ts] and [src/testing.ts], and the
    properties of the delivery pipeline proved over it.

    Conventions of the embedding:
    - a JavaScript string is the list of its UTF-16 code units, so
      [String.prototype.length] is the length of the list;
    - a number that counts or indexes ([maxQueueSize], [timeout], a
      status, a line number) is an integer;
    - [undefined] / a missing optional argument is [None];
    - a synchronous call that may throw, and a promise that may reject,
      both yield an [Outcome];
    - module-level and instance state is passed explicitly; what the
      code does to its surroundings (console, network, callbacks) is
      recorded, in order, as a list of [Effect]s;
    - an [async] method runs up to its first [await] in the call that
      starts it; the rest runs when what it awaits settles, which is an
      event of its own ([Client.Settle]);
    - a [beforeNotify] callback acts on the notice it is given and on
      nothing else; a regular expression of the ignore-list has no
      flags, so its [test] is a function of the string. *)

From Stdlib Require Import ZArith NArith List Bool Lia String Ascii.
From Stdlib Require Import Numbers.DecimalString.
From stdpp Require Import base option list gmap.
Import ListNotations.

Local Open Scope bool_scope.

(* ===================================================================== *)
(** ** JavaScript strings *)
(* ===================================================================== *)

Module JsString.

(** A string is its sequence of UTF-16 code units. *)
Definition jsstring := list N.

(** A literal of the source, written as a Rocq string. *)
Definition js (s : string) : jsstring :=
  map N_of_ascii (list_ascii_of_string s).

(** [s.length] *)
Definition str_length (s : jsstring) : Z := Z.of_nat (length s).

(** Truthiness of a string: [''] is the only falsy one. *)
Definition truthy (s : jsstring) : bool :=
  match s with [] => false | _ :: _ => true end.

(** [a === b] on strings. *)
Definition str_eqb (a b : jsstring) : bool := bool_decide (a = b).

(** [a || b] on strings. *)
Definition str_or (a b : jsstring) : jsstring := if truthy a then a else b.

(** [s.substring(a, b)]: both indices are clamped to [0 .. s.length]
    and swapped when [a > b]. *)
Definition clamp (s : jsstring) (i : Z) : Z :=
  Z.max 0 (Z.min i (str_length s)).

Definition substring (s : jsstring) (a b : Z) : jsstring :=
  let lo := Z.min (clamp s a) (clamp s b) in
  let hi := Z.max (clamp s a) (clamp s b) in
  take (Z.to_nat (hi - lo)) (drop (Z.to_nat lo) s).

(** [s.startsWith(p)] *)
Fixpoint startsWith (p s : jsstring) : bool :=
  match p, s with
  | [], _ => true
  | _ :: _, [] => false
  | a :: p', b :: s' => (a =? b)%N && startsWith p' s'
  end.

(** [s.includes(p)] *)
Fixpoint includes (p s : jsstring) : bool :=
  startsWith p s ||
  match s with
  | [] => false
  | _ :: s' => includes p s'
  end.

(** WhiteSpace and LineTerminator code points of ECMAScript: what
    [trim] strips and what [\s] matches. *)
Definition is_whitespace (c : N) : bool :=
  ((9 <=? c) && (c <=? 13) || (c =? 32) || (c =? 160) || (c =? 5760)
   || (8192 <=? c) && (c <=? 8202) || (c =? 8232) || (c =? 8233)
   || (c =? 8239) || (c =? 8287) || (c =? 12288) || (c =? 65279))%N.

(** [\w]: ASCII letters, digits and underscore. *)
Definition is_word (c : N) : bool :=
  ((48 <=? c) && (c <=? 57) || (65 <=? c) && (c <=? 90) || (c =? 95)
   || (97 <=? c) && (c <=? 122))%N.

Fixpoint trimStart (s : jsstring) : jsstring :=
  match s with
  | [] => []
  | c :: s' => if is_whitespace c then trimStart s' else s
  end.

Definition trimEnd (s : jsstring) : jsstring := rev (trimStart (rev s)).

(** [s.trim()] *)
Definition trim (s : jsstring) : jsstring := trimEnd (trimStart s).

(** [s.split(sep)] for a one-unit separator: never the empty list. *)
Fixpoint split (sep : N) (s : jsstring) : list jsstring :=
  match s with
  | [] => [[]]
  | c :: s' =>
      if (c =? sep)%N then [] :: split sep s'
      else match split sep s' with
           | l :: ls => (c :: l) :: ls
           | [] => [[c]]
           end
  end.

(** [lines.join(sep)] *)
Fixpoint join (sep : N) (ls : list jsstring) : jsstring :=
  match ls with
  | [] => []
  | [l] => l
  | l :: ls' => l ++ sep :: join sep ls'
  end.

(** Template interpolation of an integer-valued number. *)
Definition of_Z (z : Z) : jsstring :=
  js (NilZero.string_of_int (Z.to_int z)).

End JsString.
Import JsString.

(* ===================================================================== *)
(** ** Regular expressions *)
(* ===================================================================== *)

(** The flagless regular expressions of the source, with [test] decided
    by derivatives: [test] is true when some match exists, which is what
    the backtracking matcher of the engine returns. *)
Module Regex.

Inductive atom :=
| AChar (c : N)     (* a literal unit *)
| ASpace            (* \s *)
| AWord.            (* \w *)

Definition atom_matches (a : atom) (c : N) : bool :=
  match a with
  | AChar d => (c =? d)%N
  | ASpace => is_whitespace c
  | AWord => is_word c
  end.

Inductive regex :=
| RFail
| REps
| RAtom (a : atom)
| RSeq (r1 r2 : regex)
| RAlt (r1 r2 : regex)
| RStar (r : regex).

Definition ROpt (r : regex) : regex := RAlt r REps.          (* r? *)
Definition RPlus (r : regex) : regex := RSeq r (RStar r).    (* r+ *)

Fixpoint RLit (s : jsstring) : regex :=
  match s with
  | [] => REps
  | c :: s' => RSeq (RAtom (AChar c)) (RLit s')
  end.

Fixpoint nullable (r : regex) : bool :=
  match r with
  | RFail => false
  | REps => true
  | RAtom _ => false
  | RSeq r1 r2 => nullable r1 && nullable r2
  | RAlt r1 r2 => nullable r1 || nullable r2
  | RStar _ => true
  end.

Fixpoint deriv (c : N) (r : regex) : regex :=
  match r with
  | RFail => RFail
  | REps => RFail
  | RAtom a => if atom_matches a c then REps else RFail
  | RSeq r1 r2 =>
      if nullable r1 then RAlt (RSeq (deriv c r1) r2) (deriv c r2)
      else RSeq (deriv c r1) r2
  | RAlt r1 r2 => RAlt (deriv c r1) (deriv c r2)
  | RStar r1 => RSeq (deriv c r1) (RStar r1)
  end.

(** Some prefix of [s] (all of [s] under [$]) is in the language. *)
Fixpoint match_here (to_end : bool) (r : regex) (s : jsstring) : bool :=
  match s with
  | [] => nullable r
  | c :: s' => negb to_end && nullable r || match_here to_end (deriv c r) s'
  end.

Fixpoint match_anywhere (to_end : bool) (r : regex) (s : jsstring) : bool :=
  match_here to_end r s ||
  match s with
  | [] => false
  | _ :: s' => match_anywhere to_end r s'
  end.

(** [/^body$/] with either anchor optional. *)
Record RegExp := mkRegExp {
  anchor_start : bool;
  body : regex;
  anchor_end : bool }.

(** [re.test(s)] *)
Definition test (re : RegExp) (s : jsstring) : bool :=
  if anchor_start re then match_here (anchor_end re) (body re) s
  else match_anywhere (anchor_end re) (body re) s.

End Regex.

(* ===================================================================== *)
(** ** Values, errors and outcomes *)
(* ===================================================================== *)

(** JSON-like values: the [unknown] members of context bags and the
    parsed body of a response. *)
#[warnings="-register-all"]
Inductive json :=
| JNull
| JBool (b : bool)
| JNum (z : Z)
| JStr (s : jsstring)
| JArr (items : list json)
| JObj (members : list (jsstring * json)).

(** [Record<string, unknown>]: [Context], [RequestInfo] and [User]. *)
Abbreviation Context := (gmap jsstring json).

(** Object spread [{ ...a, ...b }]: the members of [b] win. *)
Definition spread (a b : Context) : Context := b ∪ a.

(** An [Error] object. *)
Record JsError := mkError {
  err_name : jsstring;
  err_message : jsstring;
  err_stack : option jsstring }.

(** [new Error(message)]; the engine-made stack is left out. *)
Definition new_Error (message : jsstring) : JsError :=
  {| err_name := js "Error"; err_message := message; err_stack := None |}.

(** What a [throw] or a rejection carries. *)
Inductive thrown :=
| ThrownError (e : JsError)
| ThrownValue (v : json).

(** Result of a call that may throw, or of awaiting a promise. *)
Inductive Outcome (A : Type) :=
| Returned (a : A)
| Thrown (e : thrown).
Arguments Returned {A} a.
Arguments Thrown {A} e.

(* ===================================================================== *)
(** ** notice.ts *)
(* ===================================================================== *)

Module Notice.

Definition MAX_BACKTRACE_LINES : nat := 100.
Definition MAX_MESSAGE_LENGTH : Z := 10000.

Record t := mk {
  errorClass : jsstring;
  message : jsstring;
  backtrace : list jsstring;
  fingerprint : option jsstring;
  tags : list jsstring;
  context : Context;
  request : Context;
  user : Context;
  environment : option jsstring;
  occurredAt : jsstring }.

(** The [options] argument of the two constructors. *)
Record Options := mkOptions {
  o_context : option Context;
  o_request : option Context;
  o_user : option Context;
  o_fingerprint : option jsstring;
  o_tags : option (list jsstring);
  o_environment : option jsstring }.

Definition no_options : Options := mkOptions None None None None None None.

Record Notifier := mkNotifier {
  name : jsstring;
  version : jsstring;
  language : jsstring;
  language_version : jsstring }.

Record ErrorPayload := mkErrorPayload {
  p_class : jsstring;
  p_message : jsstring;
  p_backtrace : list jsstring;
  p_occurred_at : jsstring;
  p_fingerprint : option jsstring;
  p_tags : option (list jsstring) }.

Record NoticePayload := mkPayload {
  p_error : ErrorPayload;
  p_context : Context;
  p_request : Context;
  p_user : Context;
  p_notifier : Notifier }.

(** What the constructors read from their surroundings: the clock, the
    [VERSION] constant of [version.ts] and the result of
    [getJsVersion()]. *)
Record Runtime := mkRuntime {
  now : jsstring;                 (* new Date().toISOString() *)
  VERSION : jsstring;
  jsVersion : jsstring }.

(** [/^\s*\w+@/] and [/^\s*@/] *)
Definition NAMED_FRAME : Regex.RegExp :=
  Regex.mkRegExp true
    (Regex.RSeq (Regex.RStar (Regex.RAtom Regex.ASpace))
       (Regex.RSeq (Regex.RPlus (Regex.RAtom Regex.AWord))
          (Regex.RAtom (Regex.AChar 64))))
    false.

Definition ANONYMOUS_FRAME : Regex.RegExp :=
  Regex.mkRegExp true
    (Regex.RSeq (Regex.RStar (Regex.RAtom Regex.ASpace))
       (Regex.RAtom (Regex.AChar 64)))
    false.

(** The predicate of the [filter] in [parseBacktrace]. *)
Definition isFrameLine (line : jsstring) : bool :=
  let trimmed := trim line in
  startsWith (js "at ") trimmed
  || Regex.test NAMED_FRAME trimmed
  || Regex.test ANONYMOUS_FRAME trimmed.

Definition parseBacktrace (stack : option jsstring) : list jsstring :=
  match stack with
  | None => []
  | Some stack =>
      if negb (truthy stack) then []
      else
        let lines := split 10 stack in
        let frames :=
          take MAX_BACKTRACE_LINES (map trim (List.filter isFrameLine lines)) in
        if (length frames =? 0)%nat
        then List.filter truthy (map trim (take MAX_BACKTRACE_LINES lines))
        else frames
  end.

Definition truncateMessage (message : jsstring) : jsstring :=
  if negb (truthy message) then []
  else if (str_length message <=? MAX_MESSAGE_LENGTH)%Z then message
  else substring message 0 (MAX_MESSAGE_LENGTH - 3) ++ js "...".

Definition createNotice (rt : Runtime) (error : JsError) (options : Options) : t :=
  {| errorClass := str_or (err_name error) (js "Error");
     message := truncateMessage (str_or (err_message error) (js "Unknown error"));
     backtrace := parseBacktrace (err_stack error);
     fingerprint := o_fingerprint options;
     tags := default [] (o_tags options);
     context := default ∅ (o_context options);
     request := default ∅ (o_request options);
     user := default ∅ (o_user options);
     environment := o_environment options;
     occurredAt := now rt |}.

Definition createNoticeFromRaw (rt : Runtime) (message : jsstring)
    (source : option jsstring) (lineno colno : option Z)
    (error : option JsError) (options : Options) : t :=
  let '(backtrace, errorClass) :=
    match error with
    | Some error =>
        (parseBacktrace (err_stack error), str_or (err_name error) (js "Error"))
    | None =>
        match source with
        | Some ((_ :: _) as source) =>
            ([source ++ js ":" ++ of_Z (default 0%Z lineno)
                     ++ js ":" ++ of_Z (default 0%Z colno)], js "Error")
        | _ => ([], js "Error")
        end
    end in
  {| errorClass := errorClass;
     message := truncateMessage message;
     backtrace := backtrace;
     fingerprint := o_fingerprint options;
     tags := default [] (o_tags options);
     context := default ∅ (o_context options);
     request := default ∅ (o_request options);
     user := default ∅ (o_user options);
     environment := o_environment options;
     occurredAt := now rt |}.

Definition toPayload (rt : Runtime) (notice : t) : NoticePayload :=
  let notifier :=
    {| name := js "@checkend/browser";
       version := VERSION rt;
       language := js "javascript";
       language_version := jsVersion rt |} in
  {| p_error :=
       {| p_class := errorClass notice;
          p_message := message notice;
          p_backtrace := backtrace notice;
          p_occurred_at := occurredAt notice;
          p_fingerprint := fingerprint notice;
          p_tags := if (0 <? length (tags notice))%nat
                    then Some (tags notice) else None |};
     p_context :=
       spread (context notice)
         (match environment notice with
          | Some ((_ :: _) as env) => {[ js "environment" := JStr env ]}
          | _ => ∅
          end);
     p_request := request notice;
     p_user := user notice;
     p_notifier := notifier |}.

(** [\d] *)
Definition is_digit (c : N) : bool := ((48 <=? c) && (c <=? 57))%N.

(** The digits [\d+] takes, greedily, at the head of [s]. *)
Fixpoint takeDigits (s : jsstring) : jsstring :=
  match s with
  | [] => []
  | c :: s' => if is_digit c then c :: takeDigits s' else []
  end.

(** The alternatives of the first group of
    [/(Chrome|Firefox|Safari|Edge|Opera)\/(\d+)/], in order. *)
Definition BROWSER_NAMES : list jsstring :=
  map js ["Chrome"; "Firefox"; "Safari"; "Edge"; "Opera"]%string.

(** One attempt of that pattern at the head of [s]: the first
    alternative that is followed by a slash and at least one digit. The
    text matched is [match[1]/match[2]], which is what [getJsVersion]
    puts together again. *)
Fixpoint versionHere (names : list jsstring) (s : jsstring) : option jsstring :=
  match names with
  | [] => None
  | name :: rest =>
      if startsWith (name ++ js "/") s then
        match takeDigits (drop (length name + 1) s) with
        | [] => versionHere rest s
        | digits => Some (name ++ js "/" ++ digits)
        end
      else versionHere rest s
  end.

(** [ua.match(...)]: the attempt is made at each position from the left. *)
Fixpoint firstVersion (ua : jsstring) : option jsstring :=
  match versionHere BROWSER_NAMES ua with
  | Some v => Some v
  | None =>
      match ua with
      | [] => None
      | _ :: ua' => firstVersion ua'
      end
  end.

(** [getJsVersion()], given [navigator.userAgent] when there is a
    navigator. *)
Definition getJsVersion (userAgent : option jsstring) : jsstring :=
  match userAgent with
  | Some ((_ :: _) as ua) =>
      match firstVersion ua with
      | Some v => v
      | None => js "unknown"
      end
  | _ => js "unknown"
  end.

(** The same pattern as a regular expression, to check [firstVersion]
    against. *)
Definition DIGIT : Regex.regex :=
  fold_right (fun c r => Regex.RAlt (Regex.RAtom (Regex.AChar c)) r) Regex.RFail
    [48; 49; 50; 51; 52; 53; 54; 55; 56; 57]%N.

Definition BROWSER_VERSION : Regex.RegExp :=
  Regex.mkRegExp false
    (Regex.RSeq
       (fold_right (fun name r => Regex.RAlt (Regex.RLit name) r) Regex.RFail
          BROWSER_NAMES)
       (Regex.RSeq (Regex.RAtom (Regex.AChar 47)) (Regex.RPlus DIGIT)))
    false.

End Notice.

(* ===================================================================== *)
(** ** configuration.ts *)
(* ===================================================================== *)

(** [BeforeNotifyCallback]: a callback receives the notice object, may
    change it in place, and either returns or throws. Only a return value
    that is [=== false] vetoes. *)
Inductive CallbackReturn :=
| ReturnsFalse
| ReturnsOther.      (* true, undefined, ... *)

Definition BeforeNotifyCallback : Type :=
  Notice.t -> Outcome CallbackReturn * Notice.t.

(** An entry of [ignoredExceptions]: a string, or a regular expression
    without the [g] or [y] flag, given by its [test]. (With one of those
    flags [test] would depend on [lastIndex]; such entries are not
    modelled. The built-in expression has no flag.) *)
Inductive Pattern :=
| PString (s : jsstring)
| PRegExp (test : jsstring -> bool).

(** The part of [window] the SDK reads. *)
Record Window := mkWindow {
  hostname : option jsstring;          (* window.location?.hostname *)
  requestInfo : Context }.             (* what captureRequestInfo gathers *)

Module Configuration.

Definition DEFAULT_ENDPOINT : jsstring := js "https://app.checkend.io".

Definition DEFAULT_FILTER_KEYS : list jsstring :=
  map js
    [ "password"; "password_confirmation"; "passwd"; "secret"; "token";
      "api_key"; "apiKey"; "access_token"; "accessToken"; "refresh_token";
      "refreshToken"; "authorization"; "bearer"; "credit_card";
      "creditCard"; "card_number"; "cardNumber"; "cvv"; "cvc"; "ssn" ]%string.

(** [/^Script error\.?$/] *)
Definition SCRIPT_ERROR : Regex.RegExp :=
  Regex.mkRegExp true
    (Regex.RSeq (Regex.RLit (js "Script error"))
       (Regex.ROpt (Regex.RAtom (Regex.AChar 46))))
    true.

Definition DEFAULT_IGNORED_EXCEPTIONS : list Pattern :=
  [ PString (js "ResizeObserver loop limit exceeded");
    PString (js "ResizeObserver loop completed with undelivered notifications");
    PRegExp (Regex.test SCRIPT_ERROR) ].

Record ConfigOptions := mkOptions {
  o_apiKey : jsstring;
  o_endpoint : option jsstring;
  o_environment : option jsstring;
  o_enabled : option bool;
  o_timeout : option Z;
  o_ignoredExceptions : option (list Pattern);
  o_filterKeys : option (list jsstring);
  o_beforeNotify : option (list BeforeNotifyCallback);
  o_debug : option bool;
  o_captureUnhandled : option bool;
  o_captureUnhandledRejections : option bool;
  o_maxQueueSize : option Z;
  o_useSendBeacon : option bool }.

Record t := mk {
  apiKey : jsstring;
  endpoint : jsstring;
  environment : jsstring;
  _enabled : option bool;
  timeout : Z;
  ignoredExceptions : list Pattern;
  filterKeys : list jsstring;
  beforeNotify : list BeforeNotifyCallback;
  debug : bool;
  captureUnhandled : bool;
  captureUnhandledRejections : bool;
  maxQueueSize : Z;
  useSendBeacon : bool }.

Definition detectEnvironment (window : option Window) : jsstring :=
  match window with
  | Some w =>
      let hostname := default [] (hostname w) in
      if str_eqb hostname (js "localhost") || str_eqb hostname (js "127.0.0.1")
      then js "development"
      else if includes (js "staging") hostname || includes (js "stage") hostname
      then js "staging"
      else js "production"
  | None => js "production"
  end.

(** [new Configuration(options)] *)
Definition new (window : option Window) (options : ConfigOptions) : t :=
  {| apiKey := o_apiKey options;
     endpoint := default DEFAULT_ENDPOINT (o_endpoint options);
     environment :=
       match o_environment options with
       | Some e => e
       | None => detectEnvironment window
       end;
     _enabled := o_enabled options;
     timeout := default 15000%Z (o_timeout options);
     ignoredExceptions :=
       DEFAULT_IGNORED_EXCEPTIONS ++ default [] (o_ignoredExceptions options);
     filterKeys := DEFAULT_FILTER_KEYS ++ default [] (o_filterKeys options);
     beforeNotify := default [] (o_beforeNotify options);
     debug := default false (o_debug options);
     captureUnhandled := default true (o_captureUnhandled options);
     captureUnhandledRejections :=
       default true (o_captureUnhandledRejections options);
     maxQueueSize := default 100%Z (o_maxQueueSize options);
     useSendBeacon := default true (o_useSendBeacon options) |}.

Definition isValid (c : t) : bool := truthy (apiKey c) && truthy (endpoint c).

Definition isProductionOrStaging (c : t) : bool :=
  existsb (str_eqb (environment c)) [js "production"; js "staging"].

(** The [enabled] getter. *)
Definition enabled (c : t) : bool :=
  match _enabled c with
  | Some b => b
  | None => isProductionOrStaging c
  end.

Definition shouldIgnore (c : t) (errorClass message : jsstring) : bool :=
  existsb
    (fun pattern =>
       match pattern with
       | PString pattern => str_eqb errorClass pattern || str_eqb message pattern
       | PRegExp test => test errorClass || test message
       end)
    (ignoredExceptions c).

Definition ingestUrl (c : t) : jsstring := endpoint c ++ js "/ingest/v1/errors".

(** The [enabled] setter. *)
Definition set_enabled (value : bool) (c : t) : t :=
  {| apiKey := apiKey c;
     endpoint := endpoint c;
     environment := environment c;
     _enabled := Some value;
     timeout := timeout c;
     ignoredExceptions := ignoredExceptions c;
     filterKeys := filterKeys c;
     beforeNotify := beforeNotify c;
     debug := debug c;
     captureUnhandled := captureUnhandled c;
     captureUnhandledRejections := captureUnhandledRejections c;
     maxQueueSize := maxQueueSize c;
     useSendBeacon := useSendBeacon c |}.

End Configuration.

(* ===================================================================== *)
(** ** The hosting environment and what the SDK does to it *)
(* ===================================================================== *)

Abbreviation NoticePayload := Notice.NoticePayload.

(** A [Response] as far as [handleResponse] reads it. *)
Record Response := mkResponse {
  status : Z;
  body_json : Outcome json;            (* await response.json() *)
  body_text : Outcome jsstring }.      (* await response.text() *)

(** How the [try] block of [sendViaFetch] ends up to and including
    [await fetch(...)]: with a response, or with whatever was thrown
    (an [AbortError] on timeout, a network error, a serialisation
    error). *)
Inductive FetchResult :=
| FetchResolved (response : Response)
| FetchRejected (e : thrown).

Record Browser := mkBrowser {
  window : option Window;
  (** [navigator.sendBeacon], when there is one *)
  navigator_sendBeacon : option (NoticePayload -> Outcome bool);
  fetch : NoticePayload -> FetchResult;
  runtime : Notice.Runtime }.

Inductive LogMsg :=
| MsgSentViaBeacon
| MsgQueueFull
| MsgBeaconFailed (e : thrown)
| MsgRequestTimeout
| MsgSendFailed (e : thrown)
| MsgSent (id problem_id : option json)
| MsgBadRequest (body : jsstring)
| MsgAuthFailed
| MsgInvalidPayload (body : jsstring)
| MsgRateLimited
| MsgServerError (status : Z) (body : jsstring)
| MsgUnexpected (status : Z) (body : jsstring)
| MsgInvalidConfiguration
| MsgStarted (environment : jsstring)
| MsgIgnoring (errorClass : jsstring)
| MsgBlocked
| MsgCallbackFailed (e : thrown).

Inductive Level := ConsoleLog | ConsoleWarn | ConsoleError.

(** Observable actions, in the order they happen. *)
Inductive Effect :=
| Console (level : Level) (msg : LogMsg)
| Beacon (payload : NoticePayload)     (* the beacon transport is tried *)
| Fetch (payload : NoticePayload)      (* a POST is issued by sendViaFetch *)
| Invoke (i : nat).                    (* beforeNotify[i] is called *)


Definition fetched (trace : list Effect) : list NoticePayload :=
  omap (fun e => match e with Fetch p => Some p | _ => None end) trace.

Definition beaconed (trace : list Effect) : list NoticePayload :=
  omap (fun e => match e with Beacon p => Some p | _ => None end) trace.

(** [value.key] on a parsed body: [None] is [undefined]. *)
Definition member (key : jsstring) (value : json) : option json :=
  match value with
  | JObj members => snd <$> List.find (fun kv => str_eqb (fst kv) key) members
  | _ => None
  end.

(* ===================================================================== *)
(** ** client.ts *)
(* ===================================================================== *)

Module Client.

Record t := mk {
  config : Configuration.t;
  queue : list NoticePayload;
  sending : bool }.

(** [new Client(config)] *)
Definition new (config : Configuration.t) : t :=
  {| config := config; queue := []; sending := false |}.

(** A client together with the activations of [processQueue] that are
    suspended at [await this.sendViaFetch(payload)], each with the
    payload it is sending, and the effects so far. *)
Record World := mkWorld {
  self : t;
  draining : list NoticePayload;
  trace : list Effect }.

Definition log (c : Configuration.t) (m : LogMsg) : list Effect :=
  if Configuration.debug c then [Console ConsoleLog m] else [].
Definition logWarn (m : LogMsg) : list Effect := [Console ConsoleWarn m].
Definition logError (m : LogMsg) : list Effect := [Console ConsoleError m].

Definition handleResponse (this : t) (response : Response)
  : Outcome (option json) * list Effect :=
  let status := status response in
  if (status =? 201)%Z then
    match body_json response with
    | Thrown e => (Thrown e, [])
    | Returned JNull =>
        (* result.id on null *)
        (Thrown (ThrownError (mkError (js "TypeError") [] None)), [])
    | Returned result =>
        (Returned (Some result),
         log (config this)
           (MsgSent (member (js "id") result) (member (js "problem_id") result)))
    end
  else
    let body :=
      match body_text response with
      | Returned b => b
      | Thrown _ => []                 (* .catch(() => '') *)
      end in
    (Returned None,
     if (status =? 400)%Z then logWarn (MsgBadRequest body)
     else if (status =? 401)%Z then logError MsgAuthFailed
     else if (status =? 422)%Z then logWarn (MsgInvalidPayload body)
     else if (status =? 429)%Z then logWarn MsgRateLimited
     else if (status >=? 500)%Z then logError (MsgServerError status body)
     else logError (MsgUnexpected status body)).

Definition is_AbortError (e : thrown) : bool :=
  match e with
  | ThrownError e => str_eqb (err_name e) (js "AbortError")
  | ThrownValue _ => false
  end.

(** [sendViaFetch] from the point where [await fetch(...)] settles.
    The response is handed to [handleResponse] by a plain [return]
    inside the [try], so a rejection of [handleResponse] is the
    rejection of [sendViaFetch]; only what the [try] block itself
    throws reaches the [catch]. *)
Definition sendViaFetch_settle (this : t) (r : FetchResult)
  : Outcome (option json) * list Effect :=
  match r with
  | FetchResolved response => handleResponse this response
  | FetchRejected e =>
      (Returned None,
       if is_AbortError e then logError MsgRequestTimeout
       else logError (MsgSendFailed e))
  end.

(** [sendViaFetch] run to completion. *)
Definition sendViaFetch (browser : Browser) (this : t) (payload : NoticePayload)
  : Outcome (option json) * list Effect :=
  let '(result, effects) := sendViaFetch_settle this (fetch browser payload) in
  (result, Fetch payload :: effects).

Definition trySendBeacon (browser : Browser) (this : t) (payload : NoticePayload)
  : bool * list Effect :=
  match navigator_sendBeacon browser with
  | None => (false, [])
  | Some sendBeacon =>
      match sendBeacon payload with
      | Returned accepted => (accepted, [Beacon payload])
      | Thrown e => (false, Beacon payload :: log (config this) (MsgBeaconFailed e))
      end
  end.

Definition sendNotice (browser : Browser) (this : t) (notice : Notice.t)
  : Outcome (option json) * list Effect :=
  let payload := Notice.toPayload (runtime browser) notice in
  let '(accepted, effects) :=
    if Configuration.useSendBeacon (config this)
    then trySendBeacon browser this payload
    else (false, []) in
  if accepted
  then (Returned None, effects ++ log (config this) MsgSentViaBeacon)
  else
    let '(result, effects') := sendViaFetch browser this payload in
    (result, effects ++ effects').

Definition set_self (w : World) (c : t) : World :=
  {| self := c; draining := draining w; trace := trace w |}.

Definition emit (es : list Effect) (w : World) : World :=
  {| self := self w; draining := draining w; trace := trace w ++ es |}.

(** One turn of the [while] loop of [processQueue], up to its [await]:
    either the queue is empty and the activation finishes, or the head
    is shifted off, its POST is issued and the activation suspends. *)
Definition drainLoop (w : World) : World :=
  match queue (self w) with
  | [] =>
      set_self w {| config := config (self w); queue := []; sending := false |}
  | payload :: rest =>
      {| self := {| config := config (self w); queue := rest;
                    sending := sending (self w) |};
         draining := draining w ++ [payload];
         trace := trace w ++ [Fetch payload] |}
  end.

(** A call of [processQueue()], up to its first [await]. *)
Definition processQueue (w : World) : World :=
  if sending (self w) || (length (queue (self w)) =? 0)%nat then w
  else
    drainLoop
      (set_self w {| config := config (self w); queue := queue (self w);
                     sending := true |}).

Definition queueNotice (browser : Browser) (notice : Notice.t) (w : World)
  : bool * World :=
  if (Z.of_nat (length (queue (self w)))
        >=? Configuration.maxQueueSize (config (self w)))%Z
  then (false, emit (log (config (self w)) MsgQueueFull) w)
  else
    let payload := Notice.toPayload (runtime browser) notice in
    let w :=
      set_self w {| config := config (self w);
                    queue := queue (self w) ++ [payload];
                    sending := sending (self w) |} in
    (true, processQueue w).

(** The POST of the [i]-th suspended activation settles with [r]: the
    activation resumes after its [await]. When [sendViaFetch] resolved,
    the loop goes on; when it rejected, the activation ends there and
    never reaches [this.sending = false]. *)
Definition settle (i : nat) (r : FetchResult) (w : World) : World :=
  match draining w !! i with
  | None => w
  | Some _ =>
      let '(result, effects) := sendViaFetch_settle (self w) r in
      let w :=
        {| self := self w; draining := delete i (draining w);
           trace := trace w ++ effects |} in
      match result with
      | Returned _ => drainLoop w
      | Thrown _ => w
      end
  end.

(** One test of the loop condition of [flush], with the call of
    [processQueue] it leads to. *)
Definition flushTurn (w : World) : World :=
  if (0 <? length (queue (self w)))%nat then processQueue w else w.

(** What can happen to a client, one turn of the event loop at a time. *)
Inductive Event :=
| Enqueue (notice : Notice.t)               (* queueNotice(notice) *)
| FlushTurn                                 (* flush() tests and triggers *)
| Settle (i : nat) (r : FetchResult).       (* a POST in flight settles *)

Definition step (browser : Browser) (e : Event) (w : World) : World :=
  match e with
  | Enqueue notice => snd (queueNotice browser notice w)
  | FlushTurn => flushTurn w
  | Settle i r => settle i r w
  end.

Definition run (browser : Browser) (es : list Event) (w : World) : World :=
  fold_left (fun w e => step browser e w) es w.

(** A freshly constructed client, nothing in flight, nothing done. *)
Definition init (config : Configuration.t) : World :=
  {| self := new config; draining := []; trace := [] |}.

(** The payload an event puts on the queue, if any. *)
Definition accepts (browser : Browser) (e : Event) (w : World)
  : list NoticePayload :=
  match e with
  | Enqueue notice =>
      if fst (queueNotice browser notice w)
      then [Notice.toPayload (runtime browser) notice] else []
  | _ => []
  end.

(** The payloads accepted by [queueNotice] along a run, in order. *)
Fixpoint accepted (browser : Browser) (es : list Event) (w : World)
  : list NoticePayload :=
  match es with
  | [] => []
  | e :: es' => accepts browser e w ++ accepted browser es' (step browser e w)
  end.

(** Whether [sendViaFetch] resolves (rather than rejects) when its POST
    settles with [r]. *)
Definition resolves (r : FetchResult) : bool :=
  match r with
  | FetchRejected _ => true
  | FetchResolved response =>
      if (status response =? 201)%Z then
        match body_json response with
        | Returned JNull | Thrown _ => false
        | Returned _ => true
        end
      else true
  end.

Definition benign (e : Event) : bool :=
  match e with
  | Settle _ r => resolves r
  | _ => true
  end.

(** What holds of a client between two events, [acc] being the
    payloads accepted so far. *)
Record drain_inv (acc : list NoticePayload) (w : World) : Prop := {
  inv_fifo : fetched (trace w) ++ queue (self w) = acc;
  inv_single : length (draining w) <= 1;
  inv_active : draining w <> [] -> sending (self w) = true;
  inv_idle : sending (self w) = false -> queue (self w) = [];
  inv_in_flight :
    forall p, p ∈ draining w -> exists sent, fetched (trace w) = sent ++ [p];
  inv_no_beacon : beaconed (trace w) = [] }.

(** No drain has died: the flag is up only while one is suspended. *)
Definition alive (w : World) : Prop :=
  sending (self w) = true -> draining w <> [].

(** Two worlds with the same client, the same drains in flight and the
    same POSTs issued; they may differ in what was logged. *)
Definition same_wire (w w' : World) : Prop :=
  self w = self w' /\ draining w = draining w'
  /\ fetched (trace w) = fetched (trace w').

End Client.

(* ===================================================================== *)
(** ** index.ts *)
(* ===================================================================== *)

Module Sdk.

Record NotifyOptions := mkNotifyOptions {
  o_context : option Context;
  o_request : option Context;
  o_user : option Context;
  o_fingerprint : option jsstring;
  o_tags : option (list jsstring) }.

Definition no_options : NotifyOptions := mkNotifyOptions None None None None None.

(** [event.reason] of a [PromiseRejectionEvent]. *)
Inductive Reason :=
| ReasonError (e : JsError)
| ReasonString (s : jsstring)
| ReasonOther (v : json).

(** The module-level variables, the suspended drains of the client and
    the effects so far. The installation of the [window] handlers is
    left out. *)
Record World := mkWorld {
  config : option Configuration.t;
  client : option Client.t;
  sanitizeFilter : option (list jsstring);   (* the keys of the filter *)
  started : bool;
  globalContext : Context;
  globalUser : Context;
  draining : list NoticePayload;
  trace : list Effect }.

Definition initial : World :=
  {| config := None; client := None; sanitizeFilter := None; started := false;
     globalContext := ∅; globalUser := ∅; draining := []; trace := [] |}.

Definition emit (es : list Effect) (w : World) : World :=
  {| config := config w; client := client w;
     sanitizeFilter := sanitizeFilter w; started := started w;
     globalContext := globalContext w; globalUser := globalUser w;
     draining := draining w; trace := trace w ++ es |}.

(** Run a method of [client!] on the client part of the world. *)
Definition with_client {A} (absent : A)
    (method : Client.World -> A * Client.World) (w : World) : A * World :=
  match client w with
  | None => (absent, w)
  | Some c =>
      let '(a, cw) := method (Client.mkWorld c (draining w) (trace w)) in
      (a, {| config := config w; client := Some (Client.self cw);
             sanitizeFilter := sanitizeFilter w; started := started w;
             globalContext := globalContext w; globalUser := globalUser w;
             draining := Client.draining cw; trace := Client.trace cw |})
  end.

Section WithEnvironment.

Variable browser : Browser.

(** [SanitizeFilter.prototype.sanitize] of [filters/sanitize.ts], for
    a filter built from the given keys. *)
Variable SanitizeFilter_sanitize : list jsstring -> Context -> Context.

Definition log (w : World) (m : LogMsg) : list Effect :=
  match config w with
  | Some c => if Configuration.debug c then [Console ConsoleLog m] else []
  | None => []
  end.
Definition logWarn (m : LogMsg) : list Effect := [Console ConsoleWarn m].

Definition start (w : World) : World :=
  match config w with
  | Some c =>
      if started w then w
      else
        let w :=
          {| config := config w; client := client w;
             sanitizeFilter := sanitizeFilter w; started := true;
             globalContext := globalContext w; globalUser := globalUser w;
             draining := draining w; trace := trace w |} in
        emit (log w (MsgStarted (Configuration.environment c))) w
  | None => w
  end.

(** [configure(options)]. A client that is replaced takes its
    suspended drains out of the model with it. *)
Definition configure (options : Configuration.ConfigOptions) (w : World) : World :=
  let c := Configuration.new (window browser) options in
  if negb (Configuration.isValid c)
  then
    {| config := Some c; client := client w;
       sanitizeFilter := sanitizeFilter w; started := started w;
       globalContext := globalContext w; globalUser := globalUser w;
       draining := draining w;
       trace := trace w ++ logWarn MsgInvalidConfiguration |}
  else
    start
      {| config := Some c; client := Some (Client.new c);
         sanitizeFilter := Some (Configuration.filterKeys c);
         started := started w;
         globalContext := globalContext w; globalUser := globalUser w;
         draining := []; trace := trace w |}.

Definition shouldNotify (w : World) : bool :=
  match config w, client w with
  | Some c, Some _ =>
      started w && Configuration.isValid c && Configuration.enabled c
  | _, _ => false
  end.

(** The loop of [runBeforeNotifyCallbacks], from callback number [i].
    The notice is one object: each callback sees the changes of the
    ones before it. *)
Fixpoint runCallbacks (w : World) (i : nat)
    (callbacks : list BeforeNotifyCallback) (notice : Notice.t)
  : bool * Notice.t * list Effect :=
  match callbacks with
  | [] => (true, notice, [])
  | callback :: rest =>
      let '(result, notice) := callback notice in
      match result with
      | Returned ReturnsFalse => (false, notice, Invoke i :: log w MsgBlocked)
      | Returned ReturnsOther =>
          let '(ok, notice, effects) := runCallbacks w (S i) rest notice in
          (ok, notice, Invoke i :: effects)
      | Thrown e =>
          let '(ok, notice, effects) := runCallbacks w (S i) rest notice in
          (ok, notice, Invoke i :: logWarn (MsgCallbackFailed e) ++ effects)
      end
  end.

Definition runBeforeNotifyCallbacks (w : World) (notice : Notice.t)
  : bool * Notice.t * list Effect :=
  match config w with
  | None => (true, notice, [])
  | Some c => runCallbacks w 0 (Configuration.beforeNotify c) notice
  end.

Definition sanitize (w : World) (data : Context) : Context :=
  match sanitizeFilter w with
  | None => data
  | Some keys => SanitizeFilter_sanitize keys data
  end.

Definition captureRequestInfo : Context :=
  match window browser with
  | None => ∅
  | Some w => requestInfo w
  end.

(** The notice both [notify] and [notifySync] build. *)
Definition buildNotice (c : Configuration.t) (w : World)
    (error : JsError) (options : NotifyOptions) : Notice.t :=
  let mergedContext :=
    sanitize w (spread (globalContext w) (default ∅ (o_context options))) in
  let mergedUser :=
    sanitize w (spread (globalUser w) (default ∅ (o_user options))) in
  let request :=
    sanitize w (default captureRequestInfo (o_request options)) in
  Notice.createNotice (runtime browser) error
    {| Notice.o_context := Some mergedContext;
       Notice.o_request := Some request;
       Notice.o_user := Some mergedUser;
       Notice.o_fingerprint := o_fingerprint options;
       Notice.o_tags := o_tags options;
       Notice.o_environment := Some (Configuration.environment c) |}.

(** The common tail of the three queueing entry points. *)
Definition deliverQueued (w : World) (notice : Notice.t) : World :=
  let '(ok, notice, effects) := runBeforeNotifyCallbacks w notice in
  let w := emit effects w in
  if negb ok then w
  else snd (with_client false (Client.queueNotice browser notice) w).

Definition notify (error : JsError) (options : NotifyOptions) (w : World) : World :=
  if negb (shouldNotify w) then w
  else
    match config w with
    | None => w
    | Some c =>
        let errorClass := str_or (err_name error) (js "Error") in
        let message := str_or (err_message error) (js "Unknown error") in
        if Configuration.shouldIgnore c errorClass message
        then emit (log w (MsgIgnoring errorClass)) w
        else deliverQueued w (buildNotice c w error options)
    end.

Definition notifySync (error : JsError) (options : NotifyOptions) (w : World)
  : Outcome (option json) * World :=
  if negb (shouldNotify w) then (Returned None, w)
  else
    match config w with
    | None => (Returned None, w)
    | Some c =>
        let notice := buildNotice c w error options in
        let '(ok, notice, effects) := runBeforeNotifyCallbacks w notice in
        let w := emit effects w in
        if negb ok then (Returned None, w)
        else
          with_client (Returned None)
            (fun cw =>
               let '(result, effects) :=
                 Client.sendNotice browser (Client.self cw) notice in
               (result, Client.emit effects cw))
            w
    end.

Definition handleUnhandledError (message : jsstring)
    (source : option jsstring) (lineno colno : option Z)
    (error : option JsError) (w : World) : World :=
  if negb (shouldNotify w) then w
  else
    match config w with
    | None => w
    | Some c =>
        let errorClass :=
          match error with
          | Some e => err_name e
          | None => js "Error"
          end in
        if Configuration.shouldIgnore c errorClass message then w
        else
          let request := sanitize w captureRequestInfo in
          let context :=
            sanitize w
              (spread (globalContext w) {[ js "unhandled" := JBool true ]}) in
          let user := sanitize w (globalUser w) in
          deliverQueued w
            (Notice.createNoticeFromRaw (runtime browser)
               message source lineno colno error
               {| Notice.o_context := Some context;
                  Notice.o_request := Some request;
                  Notice.o_user := Some user;
                  Notice.o_fingerprint := None;
                  Notice.o_tags := Some [js "unhandled"];
                  Notice.o_environment := Some (Configuration.environment c) |})
    end.

Definition handleUnhandledRejection (reason : Reason) (w : World) : World :=
  if negb (shouldNotify w) then w
  else
    match config w with
    | None => w
    | Some c =>
        let error :=
          match reason with
          | ReasonError e => e
          | ReasonString s =>
              mkError (js "UnhandledRejection") s None
          | ReasonOther _ =>
              mkError (js "UnhandledRejection")
                (js "Unhandled Promise rejection") None
          end in
        if Configuration.shouldIgnore c (err_name error) (err_message error)
        then w
        else
          let request := sanitize w captureRequestInfo in
          let context :=
            sanitize w
              (spread (globalContext w)
                 (<[ js "rejection" := JBool true ]>
                    {[ js "unhandled" := JBool true ]})) in
          let user := sanitize w (globalUser w) in
          deliverQueued w
            (Notice.createNotice (runtime browser) error
               {| Notice.o_context := Some context;
                  Notice.o_request := Some request;
                  Notice.o_user := Some user;
                  Notice.o_fingerprint := None;
                  Notice.o_tags := Some [js "unhandled"; js "promise-rejection"];
                  Notice.o_environment := Some (Configuration.environment c) |})
    end.

End WithEnvironment.


(** The context accessors. An accessor returns a copy; maps here are
    values, so the copy is the map. *)
Definition setContext (context : Context) (w : World) : World :=
  {| config := config w; client := client w;
     sanitizeFilter := sanitizeFilter w; started := started w;
     globalContext := spread (globalContext w) context;
     globalUser := globalUser w;
     draining := draining w; trace := trace w |}.

Definition setUser (user : Context) (w : World) : World :=
  {| config := config w; client := client w;
     sanitizeFilter := sanitizeFilter w; started := started w;
     globalContext := globalContext w;
     globalUser := spread (globalUser w) user;
     draining := draining w; trace := trace w |}.

Definition getContext (w : World) : Context := spread ∅ (globalContext w).

Definition getUser (w : World) : Context := spread ∅ (globalUser w).

Definition clear (w : World) : World :=
  {| config := config w; client := client w;
     sanitizeFilter := sanitizeFilter w; started := started w;
     globalContext := ∅; globalUser := ∅;
     draining := draining w; trace := trace w |}.

End Sdk.


(* ===================================================================== *)
(** ** index.ts: the handlers on [window] *)
(* ===================================================================== *)

(** What [start] and [stop] do to [window.onerror] and
    [window.onunhandledrejection]. A slot of [window] holds [null]
    ([None]) or a function; the functions the SDK installs all behave
    alike (they read the module variables when they are called), so they
    are one value. *)
Module Handlers.

Section WithPage.

(** The handlers the page may have set itself. A slot of [window] holds
    a handler or [null], as in a browser. Every handler the SDK installs
    is [OfSdk]: it closes over module variables only, so two of them
    behave alike. *)
Variable H : Type.

Inductive Handler :=
| OfPage (h : H)
| OfSdk.

Record t := mk {
  onerror : option Handler;                         (* window.onerror *)
  originalOnError : option Handler;
  onunhandledrejection : option Handler;            (* window.onunhandledrejection *)
  originalOnUnhandledRejection : option Handler }.

(** Each function returns at once when there is no [window]. *)
Definition installErrorHandler (has_window : bool) (s : t) : t :=
  if negb has_window then s
  else
    {| onerror := Some OfSdk;
       originalOnError := onerror s;
       onunhandledrejection := onunhandledrejection s;
       originalOnUnhandledRejection := originalOnUnhandledRejection s |}.

Definition uninstallErrorHandler (has_window : bool) (s : t) : t :=
  if negb has_window then s
  else
    match originalOnError s with
    | Some original =>
        {| onerror := Some original;
           originalOnError := None;
           onunhandledrejection := onunhandledrejection s;
           originalOnUnhandledRejection := originalOnUnhandledRejection s |}
    | None => s
    end.

Definition installRejectionHandler (has_window : bool) (s : t) : t :=
  if negb has_window then s
  else
    {| onerror := onerror s;
       originalOnError := originalOnError s;
       onunhandledrejection := Some OfSdk;
       originalOnUnhandledRejection := onunhandledrejection s |}.

Definition uninstallRejectionHandler (has_window : bool) (s : t) : t :=
  if negb has_window then s
  else
    match originalOnUnhandledRejection s with
    | Some original =>
        {| onerror := onerror s;
           originalOnError := originalOnError s;
           onunhandledrejection := Some original;
           originalOnUnhandledRejection := None |}
    | None => s
    end.

(** The part of [start()] that runs once [started] has been raised. *)
Definition on_start (c : Configuration.t) (has_window : bool) (s : t) : t :=
  let s :=
    if Configuration.captureUnhandled c
    then installErrorHandler has_window s else s in
  if Configuration.captureUnhandledRejections c
  then installRejectionHandler has_window s else s.

(** The part of [stop()] that runs when [started] was up. *)
Definition on_stop (has_window : bool) (s : t) : t :=
  uninstallRejectionHandler has_window (uninstallErrorHandler has_window s).

End WithPage.

Arguments OfPage {H} h.
Arguments OfSdk {H}.
Arguments mk {H} _ _ _ _.
Arguments onerror {H} _.
Arguments originalOnError {H} _.
Arguments onunhandledrejection {H} _.
Arguments originalOnUnhandledRejection {H} _.
Arguments installErrorHandler {H} _ _.
Arguments uninstallErrorHandler {H} _ _.
Arguments installRejectionHandler {H} _ _.
Arguments uninstallRejectionHandler {H} _ _.
Arguments on_start {H} _ _ _.
Arguments on_stop {H} _ _.

End Handlers.

(* ===================================================================== *)
(** ** testing.ts *)
(* ===================================================================== *)

Module Testing.

(** A notice as [captureFromPayload] rebuilds it. Its [environment] is
    whatever the payload has under [context.environment]. *)
Record Captured := mkCaptured {
  errorClass : jsstring;
  message : jsstring;
  backtrace : list jsstring;
  fingerprint : option jsstring;
  tags : list jsstring;
  context : Context;
  request : Context;
  user : Context;
  environment : option json;
  occurredAt : jsstring }.

(** The body of an intercepted request, as [JSON.parse] and
    [captureFromPayload] fare on it: there is none, or reading it
    throws, or it is a payload. (A body that parses to an object of
    another shape without making [captureFromPayload] throw is left
    out.) *)
Inductive Body :=
| NoBody
| Unreadable
| Readable (payload : NoticePayload).

(** The [data] argument of [sendBeacon]: nothing, a [Blob], or anything
    else, which is parsed ([None] when that throws). *)
Inductive BeaconData :=
| NoData
| BlobData
| OtherData (parsed : option NoticePayload).

(** What a global can hold: a function of the platform or the mock. *)
Inductive Slot (A : Type) :=
| Native (a : A)
| Mock.
Arguments Native {A} a.
Arguments Mock {A}.

Section WithPage.

(** The [fetch] and [sendBeacon] functions of the platform; a
    [sendBeacon] bound to its [navigator] is the same function. *)
Variables F B : Type.

(** The module variables, with the two globals the module replaces:
    [globalThis.fetch] ([None] when undefined) and, when there is a
    [navigator], its [sendBeacon]. *)
Record State := mkState {
  notices : list Captured;
  originalFetch : option (Slot F);
  originalSendBeacon : option (Slot B);
  isSetup : bool;
  global_fetch : option (Slot F);
  navigator : option (option (Slot B)) }.

Definition clearNotices (s : State) : State :=
  {| notices := []; originalFetch := originalFetch s;
     originalSendBeacon := originalSendBeacon s; isSetup := isSetup s;
     global_fetch := global_fetch s; navigator := navigator s |}.

Definition setup (s : State) : State :=
  if isSetup s then s
  else
    {| notices := [];
       originalFetch :=
         match global_fetch s with
         | Some f => Some f
         | None => originalFetch s
         end;
       originalSendBeacon :=
         match navigator s with
         | Some (Some b) => Some b
         | _ => originalSendBeacon s
         end;
       isSetup := true;
       global_fetch :=
         match global_fetch s with
         | Some _ => Some Mock
         | None => None
         end;
       navigator :=
         match navigator s with
         | Some (Some _) => Some (Some Mock)
         | other => other
         end |}.

Definition teardown (s : State) : State :=
  if negb (isSetup s) then s
  else
    {| notices := [];
       originalFetch := None;
       originalSendBeacon :=
         match navigator s with
         | Some _ => None
         | None => originalSendBeacon s
         end;
       isSetup := false;
       global_fetch :=
         match originalFetch s with
         | Some f => Some f
         | None => global_fetch s
         end;
       navigator :=
         match navigator s, originalSendBeacon s with
         | Some _, Some b => Some (Some b)
         | current, _ => current
         end |}.

(** [getNotices] returns a copy; lists here are values. *)
Definition getNotices (s : State) : list Captured := notices s.

Definition getLastNotice (s : State) : option Captured := last (notices s).

Definition getFirstNotice (s : State) : option Captured := head (notices s).

Definition hasNotices (s : State) : bool := (0 <? length (notices s))%nat.

Definition noticeCount (s : State) : Z := Z.of_nat (length (notices s)).

Definition toCaptured (payload : NoticePayload) : Captured :=
  {| errorClass := Notice.p_class (Notice.p_error payload);
     message := Notice.p_message (Notice.p_error payload);
     backtrace := Notice.p_backtrace (Notice.p_error payload);
     fingerprint := Notice.p_fingerprint (Notice.p_error payload);
     tags := default [] (Notice.p_tags (Notice.p_error payload));
     context := Notice.p_context payload;
     request := Notice.p_request payload;
     user := Notice.p_user payload;
     environment := Notice.p_context payload !! js "environment";
     occurredAt := Notice.p_occurred_at (Notice.p_error payload) |}.

Definition captureFromPayload (payload : NoticePayload) (s : State) : State :=
  {| notices := notices s ++ [toCaptured payload];
     originalFetch := originalFetch s;
     originalSendBeacon := originalSendBeacon s; isSetup := isSetup s;
     global_fetch := global_fetch s; navigator := navigator s |}.

(** How a call of [mockFetch] ends. *)
Inductive MockFetchResult :=
| Created (id problem_id : Z)              (* a 201 with this body *)
| Delegated (original : Slot F)            (* originalFetch(input, init) *)
| NotAvailable.                            (* rejects: fetch not available *)

Definition mockFetch (url : jsstring) (body : Body) (s : State)
  : MockFetchResult * State :=
  if includes (js "/ingest/v1/errors") url then
    let s :=
      match body with
      | Readable payload => captureFromPayload payload s
      | NoBody | Unreadable => s
      end in
    (Created (noticeCount s) (noticeCount s), s)
  else
    match originalFetch s with
    | Some original => (Delegated original, s)
    | None => (NotAvailable, s)
    end.

(** How a call of [mockSendBeacon] ends. *)
Inductive MockBeaconResult :=
| Answered (accepted : bool)
| DelegatedBeacon (original : Slot B).     (* originalSendBeacon(url, data) *)

Definition mockSendBeacon (url : jsstring) (data : BeaconData) (s : State)
  : MockBeaconResult * State :=
  if includes (js "/ingest/v1/errors") url then
    match data with
    | NoData => (Answered true, s)
    | BlobData => (Answered true, s)       (* a Blob cannot be read here *)
    | OtherData (Some payload) => (Answered true, captureFromPayload payload s)
    | OtherData None => (Answered true, s)
    end
  else
    match originalSendBeacon s with
    | Some original => (DelegatedBeacon original, s)
    | None => (Answered false, s)
    end.

End WithPage.

Arguments mkState {F B} _ _ _ _ _ _.
Arguments notices {F B} _.
Arguments originalFetch {F B} _.
Arguments originalSendBeacon {F B} _.
Arguments isSetup {F B} _.
Arguments global_fetch {F B} _.
Arguments navigator {F B} _.
Arguments clearNotices {F B} _.
Arguments setup {F B} _.
Arguments teardown {F B} _.
Arguments getNotices {F B} _.
Arguments getLastNotice {F B} _.
Arguments getFirstNotice {F B} _.
Arguments hasNotices {F B} _.
Arguments noticeCount {F B} _.
Arguments captureFromPayload {F B} _ _.
Arguments Created {F} _ _.
Arguments Delegated {F} _.
Arguments NotAvailable {F}.
Arguments mockFetch {F B} _ _ _.
Arguments Answered {B} _.
Arguments DelegatedBeacon {B} _.
Arguments mockSendBeacon {F B} _ _ _.

End Testing.

(* ===================================================================== *)
(** ** Vocabulary of the specification *)
(* ===================================================================== *)

(** The language of a regular expression; [match_here] is checked
    against it. *)
Inductive matches : Regex.regex -> jsstring -> Prop :=
| MEps : matches Regex.REps []
| MAtom a c : Regex.atom_matches a c = true -> matches (Regex.RAtom a) [c]
| MSeq r1 r2 s1 s2 :
    matches r1 s1 -> matches r2 s2 -> matches (Regex.RSeq r1 r2) (s1 ++ s2)
| MAltL r1 r2 s : matches r1 s -> matches (Regex.RAlt r1 r2) s
| MAltR r1 r2 s : matches r2 s -> matches (Regex.RAlt r1 r2) s
| MStarNil r : matches (Regex.RStar r) []
| MStarApp r s1 s2 :
    matches r s1 -> matches (Regex.RStar r) s2 -> matches (Regex.RStar r) (s1 ++ s2).

Fixpoint skipWord (s : jsstring) : jsstring :=
  match s with
  | [] => []
  | c :: s' => if is_word c then skipWord s' else s
  end.

(** A trimmed line starts with a frame marker: the token [at] followed
    by a space, a name followed by [@], or a bare [@]. This follows the
    words of the specification, not the source. *)
Definition startsWithFrameMarker (trimmed : jsstring) : bool :=
  startsWith (js "at ") trimmed
  || match trimmed with
     | c :: rest => is_word c && startsWith (js "@") (skipWord rest)
     | [] => false
     end
  || startsWith (js "@") trimmed.


(** Effects that put nothing on the network. *)
Definition quiet (effects : list Effect) : Prop :=
  fetched effects = [] /\ beaconed effects = [].

(** A call of [console.log], as opposed to a warning or an error. *)
Definition is_console_log (e : Effect) : bool :=
  match e with Console ConsoleLog _ => true | _ => false end.

(** Payloads a client still has to see through: in flight or waiting. *)
Definition pending (w : Client.World) : nat :=
  length (Client.draining w) + length (Client.queue (Client.self w)).

(** Going from [w] to [w'] delivered nothing and queued nothing. *)
Definition nothing_delivered (w w' : Sdk.World) : Prop :=
  Sdk.client w' = Sdk.client w /\ Sdk.draining w' = Sdk.draining w
  /\ fetched (Sdk.trace w') = fetched (Sdk.trace w)
  /\ beaconed (Sdk.trace w') = beaconed (Sdk.trace w).

(* ===================================================================== *)
(** ** Concrete scenarios *)
(* ===================================================================== *)

Module Examples.

Definition rt : Notice.Runtime :=
  {| Notice.now := js "2024-05-01T12:00:00.000Z";
     Notice.VERSION := js "1.0.0";
     Notice.jsVersion := js "unknown" |}.

Definition ack : json := JObj [(js "id", JNum 7); (js "problem_id", JNum 3)].

Definition created : Response :=
  {| status := 201; body_json := Returned ack; body_text := Returned [] |}.

(** A 201 whose body is not JSON. *)
Definition garbled : Response :=
  {| status := 201;
     body_json := Thrown (ThrownError (mkError (js "SyntaxError") [] None));
     body_text := Returned [] |}.

Definition rate_limited : Response :=
  {| status := 429;
     body_json := Thrown (ThrownError (mkError (js "SyntaxError") [] None));
     body_text := Returned (js "slow down") |}.

Definition timed_out : FetchResult :=
  FetchRejected (ThrownError (mkError (js "AbortError") [] None)).

Definition production_page : Window :=
  {| hostname := Some (js "app.example.com"); requestInfo := ∅ |}.

Definition local_page : Window :=
  {| hostname := Some (js "localhost"); requestInfo := ∅ |}.

(** A page whose beacon accepts everything and whose server answers 201. *)
Definition browser : Browser :=
  {| window := Some production_page;
     navigator_sendBeacon := Some (fun _ => Returned true);
     fetch := fun _ => FetchResolved created;
     runtime := rt |}.

(** The same server seen from a page without [navigator.sendBeacon]. *)
Definition browser_without_beacon : Browser :=
  {| window := Some production_page;
     navigator_sendBeacon := None;
     fetch := fun _ => FetchResolved created;
     runtime := rt |}.

(** A page whose beacon declines and whose server is rate limiting. *)
Definition browser_declining : Browser :=
  {| window := Some production_page;
     navigator_sendBeacon := Some (fun _ => Returned false);
     fetch := fun _ => FetchResolved rate_limited;
     runtime := rt |}.

Definition browser_local : Browser :=
  {| window := Some local_page;
     navigator_sendBeacon := Some (fun _ => Returned true);
     fetch := fun _ => FetchResolved created;
     runtime := rt |}.

(** [{ apiKey: 'test-key', ignoredExceptions: ['CustomError'] }] *)
Definition options : Configuration.ConfigOptions :=
  {| Configuration.o_apiKey := js "test-key";
     Configuration.o_endpoint := None;
     Configuration.o_environment := None;
     Configuration.o_enabled := None;
     Configuration.o_timeout := None;
     Configuration.o_ignoredExceptions := Some [PString (js "CustomError")];
     Configuration.o_filterKeys := None;
     Configuration.o_beforeNotify := None;
     Configuration.o_debug := None;
     Configuration.o_captureUnhandled := None;
     Configuration.o_captureUnhandledRejections := None;
     Configuration.o_maxQueueSize := None;
     Configuration.o_useSendBeacon := None |}.

Definition config : Configuration.t :=
  Configuration.new (window browser) options.

Definition boom : JsError := mkError (js "Error") (js "boom") None.
Definition custom : JsError := mkError (js "CustomError") (js "boom") None.

Definition notice (message : string) : Notice.t :=
  Notice.createNotice rt (mkError (js "Error") (js message) None) Notice.no_options.

(** A filter that redacts nothing. *)
Definition no_filter (keys : list jsstring) (data : Context) : Context := data.




(** A queue of one. *)
Definition options_small : Configuration.ConfigOptions :=
  {| Configuration.o_apiKey := js "test-key";
     Configuration.o_endpoint := None;
     Configuration.o_environment := None;
     Configuration.o_enabled := None;
     Configuration.o_timeout := None;
     Configuration.o_ignoredExceptions := None;
     Configuration.o_filterKeys := None;
     Configuration.o_beforeNotify := None;
     Configuration.o_debug := None;
     Configuration.o_captureUnhandled := None;
     Configuration.o_captureUnhandledRejections := None;
     Configuration.o_maxQueueSize := Some 1%Z;
     Configuration.o_useSendBeacon := None |}.

Definition config_small : Configuration.t :=
  Configuration.new (window browser) options_small.

(** A trace as V8 prints it. *)
Definition v8_stack : jsstring :=
  js "Error: boom" ++ [10%N] ++ js "    at foo (app.js:1:2)" ++ [10%N]
     ++ js "    at bar (app.js:3:4)".

End Examples.


(* ===================================================================== *)
(** * Properties *)
(* ===================================================================== *)

(** ** Strings *)

Lemma str_eqb_eq (a b : jsstring) : str_eqb a b = true <-> a = b.
Proof. unfold str_eqb. apply bool_decide_eq_true. Qed.

Lemma str_eqb_refl (a : jsstring) : str_eqb a a = true.
Proof. apply str_eqb_eq. reflexivity. Qed.

Lemma substring_prefix (s : jsstring) (n : Z) :
  (0 <= n <= str_length s)%Z -> substring s 0 n = take (Z.to_nat n) s.
Proof.
  intros Hn. unfold substring, clamp.
  replace (Z.max 0 (Z.min 0 (str_length s))) with 0%Z by lia.
  replace (Z.max 0 (Z.min n (str_length s))) with n by lia.
  replace (Z.min 0 n) with 0%Z by lia.
  replace (Z.max 0 n - 0)%Z with n by lia.
  reflexivity.
Qed.

Lemma startsWith_spec p s : startsWith p s = true <-> exists q, s = p ++ q.
Proof.
  revert s; induction p as [|a p IH]; intros s; simpl.
  - split; eauto.
  - destruct s as [|b s].
    + split; [discriminate|]. intros (q & [=]).
    + rewrite andb_true_iff, N.eqb_eq, IH. split.
      * intros [-> (q & ->)]. eauto.
      * intros (q & [= -> ->]). eauto.
Qed.

Lemma word_not_whitespace c : is_word c = true -> is_whitespace c = false.
Proof.
  unfold is_word, is_whitespace. intros H.
  repeat rewrite ?orb_true_iff, ?andb_true_iff, ?N.leb_le, ?N.eqb_eq in H.
  repeat rewrite ?orb_false_iff, ?andb_false_iff, ?N.leb_gt, ?N.eqb_neq. lia.
Qed.

Lemma trimStart_split s :
  exists ws, s = ws ++ trimStart s /\ forallb is_whitespace ws = true.
Proof.
  induction s as [|c s (ws & E & H)]; simpl.
  - exists []. auto.
  - destruct (is_whitespace c) eqn:Ec.
    + exists (c :: ws). simpl. rewrite Ec, H. split; [congruence|reflexivity].
    + exists []. auto.
Qed.

Lemma trimStart_app_ws ws s :
  forallb is_whitespace ws = true -> trimStart (ws ++ s) = trimStart s.
Proof.
  induction ws as [|c ws IH]; simpl; [reflexivity|].
  intros H. apply andb_true_iff in H as [-> H]. auto.
Qed.

Lemma trimStart_head s :
  match trimStart s with
  | [] => True
  | c :: _ => is_whitespace c = false
  end.
Proof.
  induction s as [|c s IH]; simpl; [exact I|].
  destruct (is_whitespace c) eqn:E; [exact IH|exact E].
Qed.

Lemma trimStart_fixed s :
  match s with [] => True | c :: _ => is_whitespace c = false end ->
  trimStart s = s.
Proof. destruct s as [|c s]; simpl; [reflexivity|]. intros ->. reflexivity. Qed.

Lemma trimStart_idem s : trimStart (trimStart s) = trimStart s.
Proof. apply trimStart_fixed, trimStart_head. Qed.

Lemma trimStart_snoc l c :
  is_whitespace c = false -> trimStart (l ++ [c]) = trimStart l ++ [c].
Proof.
  intros Hc. induction l as [|d l IH]; simpl.
  - rewrite Hc. reflexivity.
  - destruct (is_whitespace d); [exact IH|reflexivity].
Qed.

Lemma trim_head s :
  match trim s with
  | [] => True
  | c :: _ => is_whitespace c = false
  end.
Proof.
  unfold trim, trimEnd. pose proof (trimStart_head s) as H.
  destruct (trimStart s) as [|c u]; [exact I|]. simpl rev.
  rewrite trimStart_snoc, rev_app_distr by exact H. exact H.
Qed.

Lemma trimStart_trim s : trimStart (trim s) = trim s.
Proof. apply trimStart_fixed, trim_head. Qed.

Lemma trim_idem s : trim (trim s) = trim s.
Proof.
  unfold trim at 1. rewrite trimStart_trim. unfold trim, trimEnd.
  rewrite rev_involutive, trimStart_idem. reflexivity.
Qed.

Lemma skipWord_split s :
  exists w, s = w ++ skipWord s /\ forallb is_word w = true.
Proof.
  induction s as [|c s (w & E & H)]; simpl.
  - exists []. auto.
  - destruct (is_word c) eqn:Ec.
    + exists (c :: w). simpl. rewrite Ec, H. split; [congruence|reflexivity].
    + exists []. auto.
Qed.

Lemma skipWord_app w s :
  forallb is_word w = true -> skipWord (w ++ s) = skipWord s.
Proof.
  induction w as [|c w IH]; simpl; [reflexivity|].
  intros H. apply andb_true_iff in H as [-> H]. auto.
Qed.

(** [split] cuts at every separator and nowhere else. *)
Lemma split_nonempty sep s : split sep s <> [].
Proof.
  destruct s as [|c s]; simpl; [discriminate|].
  destruct (c =? sep)%N; [discriminate|]. destruct (split sep s); discriminate.
Qed.

Lemma join_split sep s : join sep (split sep s) = s.
Proof.
  induction s as [|c s IH]; simpl; [reflexivity|].
  destruct (N.eqb_spec c sep) as [->|Hc].
  - pose proof (split_nonempty sep s) as Hne.
    destruct (split sep s) as [|l ls]; [contradiction|].
    simpl in *. rewrite IH. reflexivity.
  - destruct (split sep s) as [|l ls]; simpl in *; [congruence|].
    destruct ls; simpl in *; congruence.
Qed.

Lemma split_free sep s : Forall (fun line => sep ∉ line) (split sep s).
Proof.
  induction s as [|c s IH]; simpl.
  - constructor; [|constructor]. intros H. inversion H.
  - destruct (N.eqb_spec c sep) as [->|Hc].
    + constructor; [|exact IH]. intros H. inversion H.
    + destruct (split sep s) as [|l ls]; simpl.
      * constructor; [|constructor]. intros H.
        apply list_elem_of_singleton in H. congruence.
      * inversion IH as [|? ? Hl Hls]; subst. constructor; [|exact Hls].
        intros H. apply elem_of_cons in H as [H|H]; [congruence|contradiction].
Qed.

(** ** Regular expressions: the matcher decides the language *)

Section RegexFacts.
Import Regex.

#[local] Hint Constructors matches : core.

Lemma matches_fail_inv s : ~ matches RFail s.
Proof. inversion 1. Qed.

Lemma matches_eps_inv s : matches REps s -> s = [].
Proof. inversion 1; reflexivity. Qed.

Lemma matches_atom_inv a s :
  matches (RAtom a) s -> exists c, s = [c] /\ atom_matches a c = true.
Proof. inversion 1; subst; eauto. Qed.

Lemma matches_seq_inv r1 r2 s :
  matches (RSeq r1 r2) s ->
  exists s1 s2, s = s1 ++ s2 /\ matches r1 s1 /\ matches r2 s2.
Proof. inversion 1; subst; eauto. Qed.

Lemma matches_alt_inv r1 r2 s :
  matches (RAlt r1 r2) s -> matches r1 s \/ matches r2 s.
Proof. inversion 1; subst; eauto. Qed.

Lemma matches_seq_cons r1 r2 c s1 s2 :
  matches r1 (c :: s1) -> matches r2 s2 -> matches (RSeq r1 r2) (c :: s1 ++ s2).
Proof. intros H1 H2. apply (MSeq _ _ (c :: s1) s2); assumption. Qed.

Lemma matches_seq_nil r1 r2 s :
  matches r1 [] -> matches r2 s -> matches (RSeq r1 r2) s.
Proof. intros H1 H2. apply (MSeq _ _ [] s); assumption. Qed.

Lemma nullable_spec r : nullable r = true <-> matches r [].
Proof.
  induction r as [| |a|r1 IH1 r2 IH2|r1 IH1 r2 IH2|r IH]; simpl.
  - split; [discriminate|]. intros H; destruct (matches_fail_inv _ H).
  - split; auto.
  - split; [discriminate|]. intros H.
    apply matches_atom_inv in H as (c & E & _); discriminate.
  - rewrite andb_true_iff, IH1, IH2. split.
    + intros [H1 H2]. apply matches_seq_nil; assumption.
    + intros H. apply matches_seq_inv in H as (s1 & s2 & E & H1 & H2).
      symmetry in E. apply app_eq_nil in E as [-> ->]. auto.
  - rewrite orb_true_iff, IH1, IH2. split.
    + intros [H|H]; auto.
    + apply matches_alt_inv.
  - split; auto.
Qed.

Lemma star_cons_inv r c s :
  matches (RStar r) (c :: s) ->
  exists s1 s2, s = s1 ++ s2 /\ matches r (c :: s1) /\ matches (RStar r) s2.
Proof.
  intros H. remember (RStar r) as r' eqn:Er. remember (c :: s) as cs eqn:Es.
  induction H as [| | | | | |r0 s1 s2 H1 _ H2 IH2]; try discriminate.
  injection Er as ->. destruct s1 as [|c1 s1]; simpl in Es.
  - apply IH2; auto.
  - injection Es as -> <-. eauto.
Qed.

Lemma deriv_spec r : forall c s, matches (deriv c r) s <-> matches r (c :: s).
Proof.
  induction r as [| |a|r1 IH1 r2 IH2|r1 IH1 r2 IH2|r IH]; intros c s; simpl.
  - split; intros H; destruct (matches_fail_inv _ H).
  - split; intros H; [destruct (matches_fail_inv _ H)|].
    apply matches_eps_inv in H; discriminate.
  - destruct (atom_matches a c) eqn:E; split; intros H.
    + apply matches_eps_inv in H as ->. auto.
    + apply matches_atom_inv in H as (c' & [= <- ->] & _). auto.
    + destruct (matches_fail_inv _ H).
    + apply matches_atom_inv in H as (c' & [= <- ->] & E'). congruence.
  - split.
    + intros H.
      assert (matches (RSeq (deriv c r1) r2) s \/ nullable r1 = true /\ matches (deriv c r2) s)
        as [H'|[Hn H']].
      { destruct (nullable r1); auto. apply matches_alt_inv in H as [H|H]; auto. }
      * apply matches_seq_inv in H' as (s1 & s2 & -> & H1 & H2).
        apply matches_seq_cons; [apply IH1|]; auto.
      * apply matches_seq_nil; [apply nullable_spec|apply IH2]; auto.
    + intros H. apply matches_seq_inv in H as (s1 & s2 & E & H1 & H2).
      destruct s1 as [|c1 s1]; simpl in E.
      * subst s2. apply nullable_spec in H1. rewrite H1. apply MAltR, IH2; auto.
      * injection E as <- ->. apply IH1 in H1.
        destruct (nullable r1); [apply MAltL|]; auto.
  - split; intros H; apply matches_alt_inv in H as [H|H].
    + apply MAltL, IH1; auto.
    + apply MAltR, IH2; auto.
    + apply MAltL, IH1; auto.
    + apply MAltR, IH2; auto.
  - split.
    + intros H. apply matches_seq_inv in H as (s1 & s2 & -> & H1 & H2).
      apply (MStarApp _ (c :: s1) s2); [apply IH|]; auto.
    + intros H. apply star_cons_inv in H as (s1 & s2 & -> & H1 & H2).
      constructor; [apply IH|]; auto.
Qed.

Lemma match_here_spec to_end s : forall r,
  match_here to_end r s = true <->
  exists p q, s = p ++ q /\ matches r p /\ (to_end = true -> q = []).
Proof.
  induction s as [|c s IH]; intros r; simpl.
  - rewrite nullable_spec. split.
    + intros H. exists [], []. auto.
    + intros (p & q & E & H & _). symmetry in E. apply app_eq_nil in E as [-> ->]. auto.
  - rewrite orb_true_iff, andb_true_iff, negb_true_iff, nullable_spec, IH. split.
    + intros [[E H]|(p & q & -> & H & Hq)].
      * exists [], (c :: s). repeat split; auto. congruence.
      * exists (c :: p), q. repeat split; auto. apply deriv_spec; auto.
    + intros (p & q & E & H & Hq). destruct p as [|c' p]; simpl in E.
      * left. split; auto. destruct to_end; auto. specialize (Hq eq_refl). congruence.
      * injection E as -> ->. right. exists p, q. repeat split; auto. apply deriv_spec; auto.
Qed.

Lemma matches_lit l s : matches (RLit l) s <-> s = l.
Proof.
  revert s; induction l as [|c l IH]; intros s; simpl.
  - split; [apply matches_eps_inv|intros ->; auto].
  - split.
    + intros H. apply matches_seq_inv in H as (s1 & s2 & -> & H1 & H2).
      apply matches_atom_inv in H1 as (c' & -> & E). simpl in E.
      apply N.eqb_eq in E as ->. apply IH in H2 as ->. reflexivity.
    + intros ->. apply (matches_seq_cons _ _ c [] l); [|apply IH; auto].
      constructor. simpl. apply N.eqb_refl.
Qed.


Lemma matches_star_atom a s :
  matches (RStar (RAtom a)) s <-> forallb (atom_matches a) s = true.
Proof.
  split.
  - intros H. remember (RStar (RAtom a)) as r eqn:Er.
    induction H as [| | | | | |r0 s1 s2 H1 _ H2 IH2]; try discriminate; [reflexivity|].
    injection Er as ->. apply matches_atom_inv in H1 as (c & -> & Hc).
    simpl. rewrite Hc. auto.
  - induction s as [|c s IH]; simpl; [constructor|].
    intros H. apply andb_true_iff in H as [Hc H].
    apply (MStarApp _ [c] s); auto.
Qed.

Lemma SCRIPT_ERROR_spec s :
  test Configuration.SCRIPT_ERROR s = true <->
  s = js "Script error" \/ s = js "Script error.".
Proof.
  unfold test, Configuration.SCRIPT_ERROR; cbn [anchor_start anchor_end body].
  rewrite match_here_spec. split.
  - intros (p & q & -> & H & Hq). rewrite (Hq eq_refl), app_nil_r.
    apply matches_seq_inv in H as (s1 & s2 & -> & H1 & H2).
    apply matches_lit in H1 as ->.
    apply matches_alt_inv in H2 as [H2|H2].
    + apply matches_atom_inv in H2 as (c & -> & E). simpl in E.
      apply N.eqb_eq in E as ->. right. reflexivity.
    + apply matches_eps_inv in H2 as ->. left. reflexivity.
  - intros [-> | ->].
    + exists (js "Script error"), []. repeat split; auto.
      change (js "Script error") with (js "Script error" ++ []).
      constructor; [apply matches_lit; reflexivity|]. apply MAltR. constructor.
    + exists (js "Script error."), []. repeat split; auto.
      change (js "Script error.") with (js "Script error" ++ [46%N]).
      constructor; [apply matches_lit; reflexivity|]. apply MAltL. constructor. reflexivity.
Qed.
Lemma ANONYMOUS_FRAME_spec s :
  test Notice.ANONYMOUS_FRAME s = startsWith (js "@") (trimStart s).
Proof.
  apply eq_true_iff_eq.
  unfold test, Notice.ANONYMOUS_FRAME; cbn [anchor_start anchor_end body].
  rewrite match_here_spec, startsWith_spec. split.
  - intros (p & q & -> & H & _).
    apply matches_seq_inv in H as (ws & a & -> & Hws & Ha).
    apply matches_star_atom in Hws. apply matches_atom_inv in Ha as (c & -> & Hc).
    simpl in Hc. apply N.eqb_eq in Hc as ->.
    rewrite <- app_assoc, trimStart_app_ws by exact Hws. simpl. eauto.
  - intros (q & E). destruct (trimStart_split s) as (ws & Es & Hws).
    exists (ws ++ js "@"), q. split; [|split; [|discriminate]].
    { rewrite <- app_assoc, <- E. exact Es. }
    constructor; [apply matches_star_atom; exact Hws|]. constructor. reflexivity.
Qed.

Lemma NAMED_FRAME_spec s :
  test Notice.NAMED_FRAME s =
  match trimStart s with
  | c :: t => is_word c && startsWith (js "@") (skipWord t)
  | [] => false
  end.
Proof.
  apply eq_true_iff_eq.
  unfold test, Notice.NAMED_FRAME; cbn [anchor_start anchor_end body].
  rewrite match_here_spec. split.
  - intros (p & q & -> & H & _).
    apply matches_seq_inv in H as (ws & p1 & -> & Hws & H).
    apply matches_seq_inv in H as (w & a & -> & Hw & Ha).
    apply matches_seq_inv in Hw as (w1 & w2 & -> & Hw1 & Hw2).
    apply matches_star_atom in Hws, Hw2.
    apply matches_atom_inv in Hw1 as (c & -> & Hc).
    apply matches_atom_inv in Ha as (d & -> & Hd).
    simpl in Hc, Hd. apply N.eqb_eq in Hd as ->.
    rewrite <- !app_assoc, trimStart_app_ws by exact Hws.
    cbn [app trimStart].
    rewrite (word_not_whitespace _ Hc), Hc, skipWord_app by exact Hw2.
    reflexivity.
  - destruct (trimStart_split s) as (ws & Es & Hws).
    destruct (trimStart s) as [|c t]; [discriminate|].
    intros H. apply andb_true_iff in H as [Hc H].
    apply startsWith_spec in H as (q & E).
    destruct (skipWord_split t) as (w & Et & Hw). rewrite E in Et.
    exists (ws ++ (c :: w) ++ js "@"), q. split; [|split; [|discriminate]].
    + rewrite Es, Et, <- !app_assoc. reflexivity.
    + constructor; [apply matches_star_atom; exact Hws|].
      constructor; [|constructor; reflexivity].
      apply (MSeq _ _ [c] w); [constructor; exact Hc|apply matches_star_atom; exact Hw].
Qed.

Lemma isFrameLine_spec line :
  Notice.isFrameLine line = startsWithFrameMarker (trim line).
Proof.
  unfold Notice.isFrameLine, startsWithFrameMarker.
  rewrite NAMED_FRAME_spec, ANONYMOUS_FRAME_spec, trimStart_trim. reflexivity.
Qed.

End RegexFacts.

(** ** Notices *)

Lemma Forall_filter_bool {A} (P : A -> Prop) (f : A -> bool) (l : list A) :
  Forall P l -> Forall P (List.filter f l).
Proof.
  induction 1 as [|x l Hx _ IH]; simpl; [constructor|].
  destruct (f x); [constructor|]; assumption.
Qed.

Lemma Forall_trimmed (lines : list jsstring) :
  Forall (fun frame => trim frame = frame) (map trim lines).
Proof. apply Forall_map, Forall_forall. intros line _. apply trim_idem. Qed.

Lemma frame_lines_spec (lines : list jsstring) :
  List.filter Notice.isFrameLine lines
  = List.filter (fun line => startsWithFrameMarker (trim line)) lines.
Proof. apply List.filter_ext. intros line. apply isFrameLine_spec. Qed.

Lemma parseBacktrace_frames (stack : jsstring) :
  stack <> [] ->
  Notice.parseBacktrace (Some stack)
  = match List.filter (fun line => startsWithFrameMarker (trim line)) (split 10 stack) with
    | [] => List.filter truthy (map trim (take 100 (split 10 stack)))
    | frameLines => take 100 (map trim frameLines)
    end.
Proof.
  intros Hne. unfold Notice.parseBacktrace, Notice.MAX_BACKTRACE_LINES.
  destruct stack as [|c stack]; [contradiction|]. cbn [truthy negb].
  rewrite frame_lines_spec.
  destruct (List.filter _ (split 10 (c :: stack))); reflexivity.
Qed.



(** C8. The backtrace of a stack trace: the trace is cut into lines at
    every newline; the lines whose trimmed text starts with a frame
    marker are kept, trimmed and capped at 100; when no line is a frame,
    the first 100 lines are trimmed and the empty ones dropped (all the
    non-empty trimmed lines when the trace has at most 100 lines).
    Without a stack trace the backtrace is empty, except for raw input
    that comes without an error object and with a non-empty source,
    whose backtrace is the single frame source:line:column. *)
Theorem parseBacktrace_spec (stack : jsstring) :
  let lines := split 10 stack in
  let frameLines :=
    List.filter (fun line => startsWithFrameMarker (trim line)) lines in
  join 10 lines = stack
  /\ (stack <> [] -> frameLines <> [] ->
      Notice.parseBacktrace (Some stack) = take 100 (map trim frameLines))
  /\ (stack <> [] -> frameLines = [] ->
      Notice.parseBacktrace (Some stack)
      = List.filter truthy (map trim (take 100 lines))
      /\ (length lines <= 100 ->
          Notice.parseBacktrace (Some stack) = List.filter truthy (map trim lines)))
  /\ length (Notice.parseBacktrace (Some stack)) <= 100
  /\ Forall (fun frame => trim frame = frame) (Notice.parseBacktrace (Some stack))
  /\ Notice.parseBacktrace None = []
  /\ Notice.parseBacktrace (Some []) = []
  /\ (forall rt error options,
      Notice.backtrace (Notice.createNotice rt error options)
      = Notice.parseBacktrace (err_stack error))
  /\ (forall rt message source lineno colno error options,
      Notice.backtrace
        (Notice.createNoticeFromRaw rt message source lineno colno (Some error) options)
      = Notice.parseBacktrace (err_stack error))
  /\ (forall rt message source lineno colno options,
      source <> [] ->
      Notice.backtrace
        (Notice.createNoticeFromRaw rt message (Some source) lineno colno None options)
      = [source ++ js ":" ++ of_Z (default 0%Z lineno)
                ++ js ":" ++ of_Z (default 0%Z colno)])
  /\ (forall rt message lineno colno options,
      Notice.backtrace
        (Notice.createNoticeFromRaw rt message None lineno colno None options) = []
      /\ Notice.backtrace
        (Notice.createNoticeFromRaw rt message (Some []) lineno colno None options) = []).
Proof.
  intros lines frameLines.
  assert (length (Notice.parseBacktrace (Some stack)) <= 100
          /\ Forall (fun frame => trim frame = frame)
               (Notice.parseBacktrace (Some stack))) as [Hlen Htrim].
  { destruct stack as [|c stack]; [split; [simpl; lia|constructor]|].
    rewrite parseBacktrace_frames by discriminate.
    destruct (List.filter _ (split 10 (c :: stack))) as [|l ls]; split.
    - etransitivity; [apply List.filter_length_le|].
      rewrite length_map, length_take. lia.
    - apply Forall_filter_bool, Forall_trimmed.
    - rewrite length_take. lia.
    - apply Forall_take, Forall_trimmed. }
  split; [apply join_split|].
  split; [|split; [|split; [exact Hlen|split; [exact Htrim|]]]].
  - intros Hne Hframes. rewrite parseBacktrace_frames by exact Hne.
    fold lines. fold frameLines. destruct frameLines; [contradiction|reflexivity].
  - intros Hne Hframes. rewrite parseBacktrace_frames by exact Hne.
    fold lines. fold frameLines. rewrite Hframes. split; [reflexivity|].
    intros Hfew. rewrite take_ge by exact Hfew. reflexivity.
  - repeat split.
    + intros rt message source lineno colno options Hsrc.
      destruct source; [contradiction|reflexivity].
Qed.

Lemma parseBacktrace_spec_witness :
  Notice.parseBacktrace (Some Examples.v8_stack)
  = [js "at foo (app.js:1:2)"; js "at bar (app.js:3:4)"]
  /\ Notice.parseBacktrace (Some (js "no frames here")) = [js "no frames here"]
  /\ Notice.backtrace
       (Notice.createNoticeFromRaw Examples.rt (js "Script error")
          (Some (js "https://example.com/app.js")) (Some 42%Z) (Some 10%Z) None
          Notice.no_options)
     = [js "https://example.com/app.js:42:10"].
Proof.
  split; [|split].
  - destruct (parseBacktrace_spec Examples.v8_stack) as (_ & H & _).
    rewrite H; [reflexivity|discriminate|vm_compute; discriminate].
  - destruct (parseBacktrace_spec (js "no frames here")) as (_ & _ & H & _).
    destruct H as [H _]; [discriminate|reflexivity|]. rewrite H. reflexivity.
  - destruct (parseBacktrace_spec []) as (_ & _ & _ & _ & _ & _ & _ & _ & _ & H & _).
    rewrite H; [reflexivity|discriminate].
Defined.

(** ** Configuration *)

Lemma shouldIgnore_app (c : Configuration.t) (front back : list Pattern)
    (errorClass message : jsstring) :
  Configuration.ignoredExceptions c = front ++ back ->
  Configuration.shouldIgnore c errorClass message
  = existsb
      (fun pattern =>
         match pattern with
         | PString pattern => str_eqb errorClass pattern || str_eqb message pattern
         | PRegExp test => test errorClass || test message
         end) front
    || existsb
      (fun pattern =>
         match pattern with
         | PString pattern => str_eqb errorClass pattern || str_eqb message pattern
         | PRegExp test => test errorClass || test message
         end) back.
Proof. intros H. unfold Configuration.shouldIgnore. rewrite H. apply existsb_app. Qed.

Lemma default_ignored (window : option Window)
    (options : Configuration.ConfigOptions) (errorClass message : jsstring) :
  message = js "ResizeObserver loop limit exceeded"
  \/ message = js "ResizeObserver loop completed with undelivered notifications"
  \/ Regex.test Configuration.SCRIPT_ERROR message = true ->
  Configuration.shouldIgnore (Configuration.new window options) errorClass message
  = true.
Proof.
  intros H. rewrite (shouldIgnore_app _ Configuration.DEFAULT_IGNORED_EXCEPTIONS
                       (default [] (Configuration.o_ignoredExceptions options)))
    by reflexivity.
  apply orb_true_iff. left. unfold Configuration.DEFAULT_IGNORED_EXCEPTIONS.
  cbn [existsb]. destruct H as [-> | [-> | H]].
  - rewrite str_eqb_refl. rewrite orb_true_r. reflexivity.
  - rewrite str_eqb_refl. rewrite !orb_true_r. reflexivity.
  - rewrite H. rewrite !orb_true_r. reflexivity.
Qed.

Lemma enabled_default (c : Configuration.t) :
  Configuration._enabled c = None ->
  Configuration.enabled c = true
  <-> Configuration.environment c = js "production"
      \/ Configuration.environment c = js "staging".
Proof.
  intros H. unfold Configuration.enabled, Configuration.isProductionOrStaging.
  rewrite H. cbn [existsb]. rewrite orb_false_r, orb_true_iff, !str_eqb_eq.
  reflexivity.
Qed.

(** ** The confirmable transport *)

Lemma fetched_app t1 t2 : fetched (t1 ++ t2) = fetched t1 ++ fetched t2.
Proof. apply omap_app. Qed.

Lemma beaconed_app t1 t2 : beaconed (t1 ++ t2) = beaconed t1 ++ beaconed t2.
Proof. apply omap_app. Qed.


(** Case analysis on the condition of the first conditional of the goal. *)
Ltac case_if :=
  match goal with |- context [if ?b then _ else _] => destruct b end.

Section ClientFacts.
Import Client.
Variable browser : Browser.

Lemma log_quiet c m : quiet (log c m).
Proof. unfold log. destruct (Configuration.debug c); split; reflexivity. Qed.

Lemma settle_quiet this r : quiet (snd (sendViaFetch_settle this r)).
Proof.
  destruct r as [response|e]; simpl.
  - unfold handleResponse. destruct (status response =? 201)%Z.
    + destruct (body_json response) as [[]|]; simpl; try apply log_quiet; split; reflexivity.
    + simpl. repeat case_if; split; reflexivity.
  - destruct (is_AbortError e); split; reflexivity.
Qed.

Lemma settle_resolves this r :
  resolves r = true <-> exists v, fst (sendViaFetch_settle this r) = Returned v.
Proof.
  destruct r as [response|e]; simpl; [|split; eauto].
  unfold handleResponse. destruct (status response =? 201)%Z; [|split; eauto].
  destruct (body_json response) as [[]|]; simpl; split; eauto; try discriminate;
    intros (v & [=]).
Qed.

Lemma drainLoop_inv acc w :
  fetched (trace w) ++ queue (self w) = acc ->
  draining w = [] ->
  sending (self w) = true ->
  beaconed (trace w) = [] ->
  drain_inv acc (drainLoop w).
Proof.
  intros Hfifo Hd Hs Hb. unfold drainLoop.
  destruct (queue (self w)) as [|payload rest] eqn:Eq.
  - split; simpl; auto; rewrite ?Hd; simpl; try lia; try congruence.
    intros p Hp. inversion Hp.
  - split; simpl; rewrite ?fetched_app, ?beaconed_app, ?Hd, ?Hb; simpl; auto.
    + rewrite <- app_assoc. exact Hfifo.
    + congruence.
    + intros p Hp. apply list_elem_of_singleton in Hp as ->. eauto.
Qed.

Lemma init_inv c : drain_inv [] (init c).
Proof.
  split; simpl; auto. intros p Hp. inversion Hp.
Qed.

Lemma step_inv acc e w :
  drain_inv acc w -> drain_inv (acc ++ accepts browser e w) (step browser e w).
Proof.
  intros H. pose proof H as [Hfifo Hsingle Hactive Hidle Hflight Hbeacon].
  destruct e as [notice| |i r]; simpl.
  - unfold queueNotice.
    destruct (Z.of_nat (length (queue (self w))) >=? _)%Z; simpl.
    + rewrite app_nil_r. destruct (log_quiet (config (self w)) MsgQueueFull) as [Hf Hb].
      split; simpl; rewrite ?fetched_app, ?beaconed_app, ?Hf, ?Hb, ?app_nil_r; auto.
    + unfold processQueue, set_self; simpl.
      destruct (sending (self w)) eqn:Es; simpl.
      * split; simpl; auto.
        -- rewrite app_assoc, Hfifo. reflexivity.
        -- discriminate.
      * rewrite length_app; simpl.
        replace (length (queue (self w)) + 1 =? 0)%nat with false
          by (symmetry; apply Nat.eqb_neq; lia).
        assert (draining w = []) as Hd.
        { destruct (draining w); [reflexivity|]. discriminate Hactive. discriminate. }
        apply drainLoop_inv; simpl; auto.
        rewrite app_assoc, Hfifo. reflexivity.
  - rewrite app_nil_r. unfold flushTurn, processQueue.
    destruct (0 <? length (queue (self w)))%nat eqn:El; [|exact H].
    destruct (sending (self w)) eqn:Es; simpl; [exact H|].
    rewrite (Hidle eq_refl) in El. discriminate.
  - rewrite app_nil_r. unfold settle.
    destruct (draining w !! i) as [p|] eqn:Ei; [|exact H].
    destruct (draining w) as [|p' [|]] eqn:Ed; simpl in Hsingle; try lia; [discriminate|].
    destruct i; [|discriminate]. simpl in Ei.
    pose proof (settle_quiet (self w) r) as [Hf Hb].
    destruct (sendViaFetch_settle (self w) r) as [result effects]; simpl in Hf, Hb.
    assert (sending (self w) = true) as Hs by (apply Hactive; discriminate).
    destruct result as [v|e'].
    + apply drainLoop_inv; simpl; rewrite ?fetched_app, ?beaconed_app, ?Hf, ?Hb, ?app_nil_r; auto.
    + split; simpl; rewrite ?fetched_app, ?beaconed_app, ?Hf, ?Hb, ?app_nil_r; auto.
      all: try congruence; try (intros q Hq; inversion Hq).
Qed.

Lemma run_inv es : forall acc w,
  drain_inv acc w -> drain_inv (acc ++ accepted browser es w) (run browser es w).
Proof.
  induction es as [|e es IH]; intros acc w H; simpl.
  - rewrite app_nil_r. exact H.
  - rewrite app_assoc. apply IH, step_inv, H.
Qed.

Lemma step_config e w : config (self (step browser e w)) = config (self w).
Proof.
  destruct e as [notice| |i r]; simpl.
  - unfold queueNotice. destruct (_ >=? _)%Z; simpl; [reflexivity|].
    unfold processQueue, drainLoop; simpl.
    destruct (sending (self w)); simpl; [reflexivity|].
    destruct (length _ =? 0)%nat; simpl; [reflexivity|].
    destruct (queue (self w) ++ _); reflexivity.
  - unfold flushTurn, processQueue, drainLoop.
    destruct (0 <? _)%nat; [|reflexivity].
    destruct (sending (self w) || _); [reflexivity|]. simpl.
    destruct (queue (self w)); reflexivity.
  - unfold settle. destruct (draining w !! i); [|reflexivity].
    destruct (sendViaFetch_settle (self w) r) as [[v|e'] effects]; [|reflexivity].
    unfold drainLoop; simpl. destruct (queue (self w)); reflexivity.
Qed.

Lemma run_config es : forall w, config (self (run browser es w)) = config (self w).
Proof.
  induction es as [|e es IH]; intros w; simpl; [reflexivity|].
  rewrite IH. apply step_config.
Qed.



Lemma drainLoop_queue w :
  length (queue (self (drainLoop w))) <= length (queue (self w)).
Proof. unfold drainLoop. destruct (queue (self w)); simpl; lia. Qed.

Lemma processQueue_queue w :
  length (queue (self (processQueue w))) <= length (queue (self w)).
Proof.
  unfold processQueue. destruct (sending (self w) || _); [lia|].
  etransitivity; [apply drainLoop_queue|]. simpl. lia.
Qed.

Lemma step_queue_bound e w :
  (0 <= Configuration.maxQueueSize (config (self w)))%Z ->
  (Z.of_nat (length (queue (self w))) <= Configuration.maxQueueSize (config (self w)))%Z ->
  (Z.of_nat (length (queue (self (step browser e w))))
     <= Configuration.maxQueueSize (config (self w)))%Z.
Proof.
  intros Hcap Hlen. destruct e as [notice| |i r]; cbn [step].
  - unfold queueNotice.
    destruct (Z.geb_spec (Z.of_nat (length (queue (self w))))
                (Configuration.maxQueueSize (config (self w)))) as [Hfull|Hroom];
      cbn [snd]; [exact Hlen|].
    match goal with |- context [processQueue ?x] =>
      pose proof (processQueue_queue x) as Hq; set (X := x) in *;
      assert (length (queue (self X)) = length (queue (self w)) + 1) as HX
        by (subst X; simpl; rewrite length_app; reflexivity)
    end.
    lia.
  - unfold flushTurn. destruct (0 <? _)%nat; [|exact Hlen].
    pose proof (processQueue_queue w). lia.
  - unfold settle. destruct (draining w !! i); [|exact Hlen].
    destruct (sendViaFetch_settle (self w) r) as [[v|e'] effects]; [|exact Hlen].
    match goal with |- context [drainLoop ?x] => pose proof (drainLoop_queue x) as Hq end.
    cbn [self queue] in Hq. lia.
Qed.

Lemma run_queue_bound es : forall w,
  (0 <= Configuration.maxQueueSize (config (self w)))%Z ->
  (Z.of_nat (length (queue (self w))) <= Configuration.maxQueueSize (config (self w)))%Z ->
  (Z.of_nat (length (queue (self (run browser es w))))
     <= Configuration.maxQueueSize (config (self w)))%Z.
Proof.
  induction es as [|e es IH]; intros w Hcap Hlen; simpl; [exact Hlen|].
  rewrite <- (step_config e w). apply IH; rewrite step_config; [exact Hcap|].
  apply step_queue_bound; assumption.
Qed.

Lemma same_wire_refl w : same_wire w w.
Proof. repeat split. Qed.

Lemma step_same_wire e w w' :
  same_wire w w' -> same_wire (step browser e w) (step browser e w').
Proof.
  intros (Hs & Hd & Hf).
  destruct w as [s d t], w' as [s' d' t']; simpl in Hs, Hd, Hf; subst s' d'.
  destruct e as [notice| |i r]; simpl.
  - unfold queueNotice; simpl. destruct (_ >=? _)%Z; simpl.
    + destruct (log_quiet (config s) MsgQueueFull) as [Hq _].
      unfold same_wire, emit; simpl. rewrite !fetched_app, Hq, Hf. auto.
    + unfold processQueue; simpl. destruct (sending s || _); [repeat split; assumption|].
      unfold drainLoop; simpl. destruct (queue s ++ _); simpl;
        unfold same_wire; simpl; rewrite ?fetched_app, ?Hf; auto.
  - unfold flushTurn, processQueue; simpl.
    destruct (0 <? _)%nat; [|repeat split; assumption].
    destruct (sending s || _); [repeat split; assumption|].
    unfold drainLoop; simpl. destruct (queue s); simpl;
      unfold same_wire; simpl; rewrite ?fetched_app, ?Hf; auto.
  - unfold settle; simpl. destruct (d !! i); [|repeat split; assumption].
    destruct (sendViaFetch_settle s r) as [[v|e'] effects]; simpl.
    + unfold drainLoop; simpl. destruct (queue s); simpl;
        unfold same_wire; simpl; rewrite ?fetched_app, ?Hf; auto.
    + unfold same_wire; simpl; rewrite ?fetched_app, ?Hf; auto.
Qed.

Lemma run_same_wire es : forall w w',
  same_wire w w' -> same_wire (run browser es w) (run browser es w').
Proof.
  induction es as [|e es IH]; intros w w' H; simpl; [exact H|].
  apply IH, step_same_wire, H.
Qed.

Lemma queueNotice_full notice w :
  (Configuration.maxQueueSize (config (self w))
     <= Z.of_nat (length (queue (self w))))%Z ->
  fst (queueNotice browser notice w) = false
  /\ same_wire (snd (queueNotice browser notice w)) w
  /\ accepts browser (Enqueue notice) w = [].
Proof.
  intros Hfull. unfold accepts, queueNotice.
  destruct (Z.geb_spec (Z.of_nat (length (queue (self w))))
              (Configuration.maxQueueSize (config (self w)))) as [_|Hroom]; [|lia].
  cbn [fst snd]. unfold same_wire, emit; cbn [self draining trace].
  repeat split. rewrite fetched_app.
  destruct (log_quiet (config (self w)) MsgQueueFull) as [-> _]. apply app_nil_r.
Qed.

Lemma step_alive acc e w :
  drain_inv acc w -> alive w -> benign e = true -> alive (step browser e w).
Proof.
  intros Hinv Halive Hben.
  pose proof Hinv as [Hfifo Hsingle Hactive Hidle Hflight Hbeacon].
  destruct e as [notice| |i r]; cbn [step].
  - unfold queueNotice. destruct (_ >=? _)%Z; cbn [snd]; [exact Halive|].
    unfold processQueue; simpl. destruct (sending (self w)) eqn:Es; simpl.
    + intros _. apply Halive. exact Es.
    + rewrite length_app; simpl.
      replace (length (queue (self w)) + 1 =? 0)%nat with false
        by (symmetry; apply Nat.eqb_neq; lia).
      unfold drainLoop; simpl. rewrite (Hidle eq_refl); simpl.
      intros _. destruct (draining w); discriminate.
  - unfold flushTurn, processQueue.
    destruct (0 <? _)%nat eqn:El; [|exact Halive].
    destruct (sending (self w)) eqn:Es; simpl; [exact Halive|].
    rewrite (Hidle eq_refl) in El. discriminate.
  - unfold settle. destruct (draining w !! i) as [p|] eqn:Ei; [|exact Halive].
    destruct (draining w) as [|p' [|]] eqn:Ed; simpl in Hsingle; try lia; [discriminate|].
    destruct i; [|discriminate].
    simpl in Hben. apply (settle_resolves (self w)) in Hben as (v & Hv).
    destruct (sendViaFetch_settle (self w) r) as [result effects]; simpl in Hv; subst result.
    unfold alive, drainLoop; simpl. destruct (queue (self w)); simpl; discriminate.
Qed.


Lemma settle_pending acc r w :
  drain_inv acc w -> resolves r = true -> draining w <> [] ->
  S (pending (settle 0 r w)) = pending w.
Proof.
  intros [Hfifo Hsingle Hactive Hidle Hflight Hbeacon] Hres Hd. unfold pending, settle.
  destruct (draining w) as [|p' [|]] eqn:Ed; simpl in Hsingle; try lia; [congruence|].
  simpl. apply (settle_resolves (self w)) in Hres as (v & Hv).
  destruct (sendViaFetch_settle (self w) r) as [result effects]; simpl in Hv; subst result.
  unfold drainLoop; simpl. destruct (queue (self w)); simpl; lia.
Qed.

Lemma drain_completes rs : forall acc w,
  drain_inv acc w -> alive w ->
  forallb resolves rs = true -> length rs = pending w ->
  let w' := run browser (map (Settle 0) rs) w in
  fetched (trace w') = acc /\ queue (self w') = [] /\ draining w' = []
  /\ sending (self w') = false.
Proof.
  induction rs as [|r rs IH]; intros acc w Hinv Halive Hres Hlen; simpl.
  - unfold pending in Hlen. simpl in Hlen.
    assert (draining w = []) as Hd by (destruct (draining w); [reflexivity|discriminate]).
    assert (queue (self w) = []) as Hq.
    { destruct (queue (self w)); [reflexivity|]. rewrite Hd in Hlen. discriminate. }
    destruct Hinv as [Hfifo _ _ _ _ _]. rewrite Hq, app_nil_r in Hfifo.
    repeat split; auto. destruct (sending (self w)) eqn:Es; [|reflexivity].
    destruct (Halive Es Hd).
  - simpl in Hres. apply andb_true_iff in Hres as [Hr Hres]. simpl in Hlen.
    assert (draining w <> []) as Hd.
    { intros Hd. destruct (sending (self w)) eqn:Es; [destruct (Halive Es Hd)|].
      destruct Hinv as [_ _ _ Hidle _ _]. unfold pending in Hlen.
      rewrite Hd, (Hidle Es) in Hlen. discriminate. }
    pose proof (settle_pending acc r w Hinv Hr Hd) as Hp.
    apply IH; [| |exact Hres|lia].
    + pose proof (step_inv acc (Settle 0 r) w Hinv) as H. simpl in H.
      rewrite app_nil_r in H. exact H.
    + apply (step_alive acc (Settle 0 r) w Hinv Halive). exact Hr.
Qed.

Lemma run_alive es : forall acc w,
  drain_inv acc w -> alive w -> forallb benign es = true ->
  alive (run browser es w).
Proof.
  induction es as [|e es IH]; intros acc w Hinv Halive Hben; simpl; [exact Halive|].
  simpl in Hben. apply andb_true_iff in Hben as [He Hben].
  apply (IH (acc ++ accepts browser e w)); [apply step_inv, Hinv| |exact Hben].
  apply (step_alive acc); assumption.
Qed.


End ClientFacts.

(** A drain that has died: the flag is up and nothing is in flight. *)
Section StallFacts.
Import Client.
Variable browser : Browser.

Lemma settle_rejects this r :
  resolves r = false -> exists e, sendViaFetch_settle this r = (Thrown e, []).
Proof.
  destruct r as [response|e]; simpl; [|discriminate].
  unfold handleResponse. destruct (status response =? 201)%Z; [|discriminate].
  destruct (body_json response) as [[]|e]; simpl; try discriminate; eauto.
Qed.

Lemma stalled_step e w :
  sending (self w) = true -> draining w = [] ->
  sending (self (step browser e w)) = true
  /\ draining (step browser e w) = []
  /\ fetched (trace (step browser e w)) = fetched (trace w).
Proof.
  intros Hs Hd. destruct e as [notice| |i r]; cbn [step].
  - unfold queueNotice. destruct (_ >=? _)%Z; cbn [snd].
    + unfold emit. cbn [self draining trace]. rewrite fetched_app.
      destruct (log_quiet (config (self w)) MsgQueueFull) as [-> _].
      rewrite app_nil_r. auto.
    + unfold processQueue, set_self. cbn [self sending draining trace].
      rewrite Hs. cbn [orb self sending draining trace]. auto.
  - unfold flushTurn, processQueue. rewrite Hs. cbn [orb].
    destruct (0 <? _)%nat; auto.
  - unfold settle. rewrite Hd. cbn. auto.
Qed.

Lemma stalled_run later : forall w,
  sending (self w) = true -> draining w = [] ->
  sending (self (run browser later w)) = true
  /\ draining (run browser later w) = []
  /\ fetched (trace (run browser later w)) = fetched (trace w).
Proof.
  induction later as [|e later IH]; intros w Hs Hd; [auto|].
  destruct (stalled_step e w Hs Hd) as (Hs' & Hd' & Hf').
  change (run browser (e :: later) w) with (run browser later (step browser e w)).
  destruct (IH _ Hs' Hd') as (Hs'' & Hd'' & Hf'').
  rewrite Hf'' , Hf'. auto.
Qed.

End StallFacts.



(** C6, on the code. A 201 whose body cannot be read as JSON, or reads
    as null, is not turned into null: [handleResponse] rejects, and since
    [sendViaFetch] returns its promise without awaiting it inside the
    [try], the [catch] never sees the failure. The attempt rejects to
    the caller with what [response.json()] threw (a [TypeError] for
    null), and nothing is logged. *)
Theorem unreadable_201_rejects (browser : Browser) (this : Client.t)
    (payload : NoticePayload) (response : Response) :
  fetch browser payload = FetchResolved response ->
  status response = 201%Z ->
  (forall e, body_json response = Thrown e ->
     Client.sendViaFetch browser this payload = (Thrown e, [Fetch payload]))
  /\ (body_json response = Returned JNull ->
      exists e,
        Client.sendViaFetch browser this payload = (Thrown e, [Fetch payload])).
Proof.
  intros Hf Hs. unfold Client.sendViaFetch. rewrite Hf.
  cbn [Client.sendViaFetch_settle]. unfold Client.handleResponse. rewrite Hs.
  change (201 =? 201)%Z with true. cbn iota.
  split.
  - intros e ->. reflexivity.
  - intros ->. eexists. reflexivity.
Qed.

Lemma unreadable_201_rejects_witness :
  let b := {| window := None; navigator_sendBeacon := None;
              fetch := fun _ => FetchResolved Examples.garbled;
              runtime := Examples.rt |} in
  let payload := Notice.toPayload Examples.rt (Examples.notice "boom") in
  exists e,
    Client.sendViaFetch b (Client.new Examples.config) payload
    = (Thrown e, [Fetch payload]).
Proof.
  intros b payload.
  destruct (unreadable_201_rejects b (Client.new Examples.config) payload
              Examples.garbled eq_refl eq_refl) as [H _].
  eexists. apply H. reflexivity.
Defined.

(** The same on a run of the queue: the drain that awaits the rejected
    attempt never lowers its flag, so nothing queued afterwards is
    sent. *)
Example garbled_201_rejects :
  let b := {| window := None; navigator_sendBeacon := None;
              fetch := fun _ => FetchResolved Examples.garbled;
              runtime := Examples.rt |} in
  let w := Client.run b
             [Client.Enqueue (Examples.notice "first");
              Client.Settle 0 (FetchResolved Examples.garbled);
              Client.Enqueue (Examples.notice "second");
              Client.FlushTurn]
             (Client.init Examples.config) in
  (exists e,
     fst (Client.sendViaFetch b (Client.new Examples.config)
            (Notice.toPayload Examples.rt (Examples.notice "first")))
     = Thrown e)
  /\ Client.sending (Client.self w) = true
  /\ Client.draining w = []
  /\ Client.queue (Client.self w)
     = [Notice.toPayload Examples.rt (Examples.notice "second")]
  /\ fetched (Client.trace w)
     = [Notice.toPayload Examples.rt (Examples.notice "first")].
Proof. vm_compute. repeat split. eexists. reflexivity. Qed.

(** C1, as the code has it. [sendNotice] tries the beacon first when it
    is enabled and available; an accepted beacon ends the attempt with
    null and no POST; a beacon that declines or throws is followed by
    the POST; with the beacon disabled or unavailable the attempt is the
    POST alone. The drain of the queue never tries the beacon: every
    transmission it makes is a POST. *)
Theorem transport_selection (browser : Browser) (this : Client.t)
    (notice : Notice.t) :
  let payload := Notice.toPayload (runtime browser) notice in
  (forall sendBeacon,
     Configuration.useSendBeacon (Client.config this) = true ->
     navigator_sendBeacon browser = Some sendBeacon ->
     sendBeacon payload = Returned true ->
     Client.sendNotice browser this notice
     = (Returned None,
        Beacon payload :: Client.log (Client.config this) MsgSentViaBeacon))
  /\ (forall sendBeacon,
     Configuration.useSendBeacon (Client.config this) = true ->
     navigator_sendBeacon browser = Some sendBeacon ->
     sendBeacon payload <> Returned true ->
     exists logs, quiet logs /\
       Client.sendNotice browser this notice
       = (fst (Client.sendViaFetch browser this payload),
          Beacon payload :: logs ++ snd (Client.sendViaFetch browser this payload)))
  /\ (Configuration.useSendBeacon (Client.config this) = false
      \/ navigator_sendBeacon browser = None ->
     Client.sendNotice browser this notice
     = Client.sendViaFetch browser this payload)
  /\ (exists effects, quiet effects /\
        snd (Client.sendViaFetch browser this payload) = Fetch payload :: effects)
  /\ (forall events,
        beaconed
          (Client.trace (Client.run browser events (Client.init (Client.config this))))
        = []).
Proof.
  intros payload. unfold Client.sendNotice. fold payload.
  split; [|split; [|split; [|split]]].
  - intros f -> Hf Hp. unfold Client.trySendBeacon. rewrite Hf, Hp. reflexivity.
  - intros f -> Hf Hp. unfold Client.trySendBeacon. rewrite Hf.
    destruct (f payload) as [[|]|e]; [congruence| |].
    + exists []. split; [split; reflexivity|].
      destruct (Client.sendViaFetch browser this payload); reflexivity.
    + exists (Client.log (Client.config this) (MsgBeaconFailed e)). split.
      * apply log_quiet.
      * destruct (Client.sendViaFetch browser this payload); reflexivity.
  - intros [-> | Hn].
    + destruct (Client.sendViaFetch browser this payload); reflexivity.
    + unfold Client.trySendBeacon. rewrite Hn.
      destruct (Configuration.useSendBeacon _);
        destruct (Client.sendViaFetch browser this payload); reflexivity.
  - unfold Client.sendViaFetch.
    pose proof (settle_quiet this (fetch browser payload)) as Hq.
    destruct (Client.sendViaFetch_settle this (fetch browser payload)) as [r es].
    exists es. split; [exact Hq|reflexivity].
  - intros events.
    pose proof (run_inv browser events [] _ (init_inv (Client.config this))) as H.
    apply (Client.inv_no_beacon _ _ H).
Qed.

Lemma transport_selection_witness :
  let payload := Notice.toPayload Examples.rt (Examples.notice "boom") in
  let this := Client.new Examples.config in
  Client.sendNotice Examples.browser this (Examples.notice "boom")
  = (Returned None, [Beacon payload])
  /\ Client.sendNotice Examples.browser_without_beacon this (Examples.notice "boom")
     = Client.sendViaFetch Examples.browser_without_beacon this payload.
Proof.
  intros payload this. split.
  - apply (transport_selection Examples.browser this (Examples.notice "boom"))
      with (fun _ => Returned true); reflexivity.
  - apply (transport_selection Examples.browser_without_beacon this
             (Examples.notice "boom")).
    right. reflexivity.
Defined.

(** C1, as stated, fails on the drain: with the beacon enabled,
    available and accepting, a queued payload goes out as a POST and the
    beacon is never tried. *)
Lemma drain_bypasses_beacon :
  let payload := Notice.toPayload Examples.rt (Examples.notice "boom") in
  let w := Client.run Examples.browser
             [Client.Enqueue (Examples.notice "boom")]
             (Client.init Examples.config) in
  Configuration.useSendBeacon Examples.config = true
  /\ (exists sendBeacon,
        navigator_sendBeacon Examples.browser = Some sendBeacon
        /\ sendBeacon payload = Returned true)
  /\ Client.trace w = [Fetch payload]
  /\ ~ In (Beacon payload) (Client.trace w).
Proof.
  intros payload w. split; [reflexivity|]. split; [eexists; split; reflexivity|].
  assert (Client.trace w = [Fetch payload]) as H by (vm_compute; reflexivity).
  split; [exact H|]. rewrite H. intros [E|[]]. discriminate E.
Qed.

(** Along any run of a client (enqueues, turns of [flush], and
    settlements of POSTs in flight): at most one drain is suspended, so
    at most one POST of the queue is in flight; while the flag is up a
    further trigger changes nothing; the POSTs issued so far, followed
    by the payloads still waiting, are exactly the accepted payloads in
    the order they were accepted, so nothing is sent twice or out of
    order; and, when no attempt has rejected, settling the pending POSTs
    one after the other sends everything accepted and returns the client
    to idle. *)
Theorem drain_single_flight_fifo (browser : Browser) (c : Configuration.t)
    (events : list Client.Event) :
  let w := Client.run browser events (Client.init c) in
  let acc := Client.accepted browser events (Client.init c) in
  length (Client.draining w) <= 1
  /\ (Client.draining w <> [] -> Client.sending (Client.self w) = true)
  /\ (Client.sending (Client.self w) = true ->
      Client.processQueue w = w /\ Client.flushTurn w = w)
  /\ fetched (Client.trace w) ++ Client.queue (Client.self w) = acc
  /\ (forall p, p ∈ Client.draining w ->
      exists sent, fetched (Client.trace w) = sent ++ [p])
  /\ (NoDup acc -> NoDup (fetched (Client.trace w)))
  /\ (forallb Client.benign events = true ->
      forall replies,
        forallb Client.resolves replies = true ->
        length replies = pending w ->
        let w' := Client.run browser (map (Client.Settle 0) replies) w in
        fetched (Client.trace w') = acc
        /\ Client.queue (Client.self w') = []
        /\ Client.draining w' = []
        /\ Client.sending (Client.self w') = false).
Proof.
  intros w acc.
  pose proof (run_inv browser events [] _ (init_inv c)) as Hinv.
  cbn [app] in Hinv. fold w acc in Hinv.
  pose proof Hinv as [Hfifo Hsingle Hactive Hidle Hflight Hbeacon].
  split; [exact Hsingle|]. split; [exact Hactive|]. split.
  { intros Hs. unfold Client.flushTurn, Client.processQueue. rewrite Hs. cbn [orb].
    split; [reflexivity|]. destruct (0 <? _)%nat; reflexivity. }
  split; [exact Hfifo|]. split; [exact Hflight|]. split.
  { intros Hnd. rewrite <- Hfifo in Hnd. apply NoDup_app in Hnd as (H & _ & _). exact H. }
  intros Hben replies Hres Hlen.
  apply (drain_completes browser replies acc w Hinv); [|exact Hres|exact Hlen].
  apply (run_alive browser events [] _ (init_inv c)); [|exact Hben].
  unfold Client.alive. discriminate.
Qed.

Lemma drain_single_flight_fifo_witness :
  let events :=
    [Client.Enqueue (Examples.notice "P1");
     Client.Enqueue (Examples.notice "P2");
     Client.FlushTurn;
     Client.Enqueue (Examples.notice "P3")] in
  let replies :=
    [FetchResolved Examples.created; Examples.timed_out;
     FetchResolved Examples.rate_limited] in
  let w := Client.run Examples.browser
             (events ++ map (Client.Settle 0) replies)
             (Client.init Examples.config) in
  fetched (Client.trace w)
  = map (Notice.toPayload Examples.rt)
      [Examples.notice "P1"; Examples.notice "P2"; Examples.notice "P3"]
  /\ Client.queue (Client.self w) = []
  /\ Client.draining w = []
  /\ Client.sending (Client.self w) = false.
Proof.
  intros events replies w.
  destruct (drain_single_flight_fifo Examples.browser Examples.config events)
    as (_ & _ & _ & _ & _ & _ & H).
  unfold w, Client.run. rewrite fold_left_app.
  apply (H eq_refl replies eq_refl eq_refl).
Defined.

(** C3, on the code. Not every accepted payload is sent: once an attempt
    of the drain rejects (a 201 whose body does not parse, or parses to
    null), the drain ends at its [await] and never lowers its flag.
    From then on, whatever happens (notices offered, turns of [flush],
    settlements), no trigger starts a drain and nothing is sent any
    more: the payloads accepted before and after stay in the queue. *)
Theorem drain_stalls_after_rejection (browser : Browser) (c : Configuration.t)
    (events later : list Client.Event) (r : FetchResult) :
  let w := Client.run browser events (Client.init c) in
  Client.draining w <> [] ->
  Client.resolves r = false ->
  let stalled := Client.run browser later (Client.settle 0 r w) in
  (exists e, fst (Client.sendViaFetch_settle (Client.self w) r) = Thrown e)
  /\ Client.sending (Client.self stalled) = true
  /\ Client.draining stalled = []
  /\ Client.processQueue stalled = stalled
  /\ Client.flushTurn stalled = stalled
  /\ fetched (Client.trace stalled) = fetched (Client.trace w)
  /\ fetched (Client.trace w) ++ Client.queue (Client.self stalled)
     = Client.accepted browser (events ++ Client.Settle 0 r :: later) (Client.init c).
Proof.
  intros w Hd Hr stalled.
  pose proof (run_inv browser events [] _ (init_inv c)) as Hinv.
  cbn [app] in Hinv. fold w in Hinv.
  pose proof Hinv as [_ Hsingle Hactive _ _ _].
  destruct (settle_rejects (Client.self w) r Hr) as (e & He).
  assert (Client.settle 0 r w
          = {| Client.self := Client.self w; Client.draining := [];
               Client.trace := Client.trace w ++ [] |}) as Hsettle.
  { unfold Client.settle. destruct (Client.draining w) as [|p [|q rest]];
      [congruence| |cbn [length] in Hsingle; lia].
    cbn [lookup list_lookup]. rewrite He. reflexivity. }
  destruct (stalled_run browser later (Client.settle 0 r w)) as (Hs & Hd' & Hf).
  { rewrite Hsettle. apply Hactive, Hd. }
  { rewrite Hsettle. reflexivity. }
  fold stalled in Hs, Hd', Hf.
  assert (fetched (Client.trace stalled) = fetched (Client.trace w)) as Hsame.
  { rewrite Hf, Hsettle. cbn [Client.trace]. rewrite app_nil_r. reflexivity. }
  split; [exists e; rewrite He; reflexivity|].
  split; [exact Hs|]. split; [exact Hd'|]. split.
  { unfold Client.processQueue. rewrite Hs. reflexivity. }
  split.
  { unfold Client.flushTurn, Client.processQueue. rewrite Hs. cbn [orb].
    destruct (0 <? _)%nat; reflexivity. }
  split; [exact Hsame|].
  pose proof (run_inv browser (events ++ Client.Settle 0 r :: later) [] _ (init_inv c))
    as [Hfifo _ _ _ _ _].
  cbn [app] in Hfifo. rewrite <- Hfifo, <- Hsame. unfold stalled, w, Client.run.
  rewrite fold_left_app. reflexivity.
Qed.

Lemma drain_stalls_after_rejection_witness :
  let stalled :=
    Client.run Examples.browser
      [Client.Enqueue (Examples.notice "first");
       Client.Settle 0 (FetchResolved Examples.garbled);
       Client.Enqueue (Examples.notice "second");
       Client.FlushTurn;
       Client.Enqueue (Examples.notice "third")]
      (Client.init Examples.config) in
  Client.sending (Client.self stalled) = true
  /\ Client.draining stalled = []
  /\ fetched (Client.trace stalled)
     = map (Notice.toPayload Examples.rt) [Examples.notice "first"]
  /\ Client.queue (Client.self stalled)
     = map (Notice.toPayload Examples.rt)
         [Examples.notice "second"; Examples.notice "third"].
Proof.
  intros stalled.
  destruct (drain_stalls_after_rejection Examples.browser Examples.config
              [Client.Enqueue (Examples.notice "first")]
              [Client.Enqueue (Examples.notice "second"); Client.FlushTurn;
               Client.Enqueue (Examples.notice "third")]
              (FetchResolved Examples.garbled))
    as (_ & Hs & Hd & _ & _ & Hf & Hq); [vm_compute; discriminate|reflexivity|].
  split; [exact Hs|]. split; [exact Hd|]. split; [exact Hf|].
  apply (app_inv_head
           (map (Notice.toPayload Examples.rt) [Examples.notice "first"])).
  exact Hq.
Defined.

(** C4. With a capacity that is a count (not negative), along any run
    of a client the queue never holds more than [maxQueueSize] payloads
    (100 when the option is not given). When it holds that many,
    [queueNotice] returns false and leaves the client as it was, queue
    included; the run that follows is, but for the log, the run in which
    the rejected notice was never offered, so its payload is not sent on
    account of that call. What is sent is a prefix of what was
    accepted. *)
Theorem queue_capacity (browser : Browser) (c : Configuration.t)
    (events : list Client.Event) :
  (0 <= Configuration.maxQueueSize c)%Z ->
  let w := Client.run browser events (Client.init c) in
  (Z.of_nat (length (Client.queue (Client.self w))) <= Configuration.maxQueueSize c)%Z
  /\ (forall notice,
       (Configuration.maxQueueSize c
          <= Z.of_nat (length (Client.queue (Client.self w))))%Z ->
       fst (Client.queueNotice browser notice w) = false
       /\ Client.same_wire (snd (Client.queueNotice browser notice w)) w
       /\ Client.accepts browser (Client.Enqueue notice) w = []
       /\ forall later,
            Client.same_wire
              (Client.run browser (Client.Enqueue notice :: later) w)
              (Client.run browser later w))
  /\ fetched (Client.trace w) ++ Client.queue (Client.self w)
     = Client.accepted browser events (Client.init c)
  /\ (forall window options,
       Configuration.o_maxQueueSize options = None ->
       Configuration.maxQueueSize (Configuration.new window options) = 100%Z).
Proof.
  intros Hcap w. split; [|split; [|split]].
  - apply (run_queue_bound browser events (Client.init c)); simpl; [exact Hcap|lia].
  - intros notice Hfull.
    assert (Client.config (Client.self w) = c) as Hc
      by (unfold w; rewrite run_config; reflexivity).
    rewrite <- Hc in Hfull.
    destruct (queueNotice_full browser notice w Hfull) as (Hfalse & Hsame & Hacc).
    split; [exact Hfalse|]. split; [exact Hsame|]. split; [exact Hacc|].
    intros later. unfold Client.run. cbn [fold_left Client.step].
    apply (run_same_wire browser later). exact Hsame.
  - pose proof (run_inv browser events [] _ (init_inv c)) as Hinv.
    apply (Client.inv_fifo _ _ Hinv).
  - intros window options H. unfold Configuration.new.
    cbn [Configuration.maxQueueSize]. rewrite H. reflexivity.
Qed.

Lemma queue_capacity_witness :
  let w := Client.run Examples.browser
             [Client.Enqueue (Examples.notice "in flight");
              Client.Enqueue (Examples.notice "waiting")]
             (Client.init Examples.config_small) in
  length (Client.queue (Client.self w)) = 1
  /\ fst (Client.queueNotice Examples.browser (Examples.notice "dropped") w) = false
  /\ Client.self (snd (Client.queueNotice Examples.browser (Examples.notice "dropped") w))
     = Client.self w.
Proof.
  intros w. split; [reflexivity|].
  destruct (queue_capacity Examples.browser Examples.config_small
              [Client.Enqueue (Examples.notice "in flight");
               Client.Enqueue (Examples.notice "waiting")])
    as (_ & H & _); [vm_compute; discriminate|].
  destruct (H (Examples.notice "dropped")) as (Hfalse & Hsame & _);
    [vm_compute; discriminate|].
  split; [exact Hfalse|apply Hsame].
Defined.

(** ** The orchestrator *)

Section SdkFacts.
Import Sdk.
Variable browser : Browser.
Variable sanitize : list jsstring -> Context -> Context.

Lemma sdk_log_quiet w m : quiet (log w m).
Proof.
  unfold log. destruct (config w) as [c|]; [|split; reflexivity].
  destruct (Configuration.debug c); split; reflexivity.
Qed.

Lemma emit_nothing_delivered w effects :
  quiet effects -> nothing_delivered w (emit effects w).
Proof.
  intros [Hf Hb]. unfold nothing_delivered, emit; simpl.
  rewrite fetched_app, beaconed_app, Hf, Hb, !app_nil_r. auto.
Qed.

Lemma nothing_delivered_refl w : nothing_delivered w w.
Proof. repeat split. Qed.



Lemma not_enabled_silent w :
  shouldNotify w = false ->
  (forall error options, notify browser sanitize error options w = w)
  /\ (forall error options,
        notifySync browser sanitize error options w = (Returned None, w))
  /\ (forall message source lineno colno error,
        handleUnhandledError browser sanitize message source lineno colno error w = w)
  /\ (forall reason, handleUnhandledRejection browser sanitize reason w = w).
Proof.
  intros H. unfold notify, notifySync, handleUnhandledError, handleUnhandledRejection.
  rewrite H. repeat split.
Qed.

Lemma notify_ignored w c error options :
  config w = Some c ->
  Configuration.shouldIgnore c (str_or (err_name error) (js "Error"))
    (str_or (err_message error) (js "Unknown error")) = true ->
  nothing_delivered w (notify browser sanitize error options w).
Proof.
  intros Hc Hi. unfold notify. destruct (shouldNotify w); [|apply nothing_delivered_refl].
  cbn [negb]. rewrite Hc, Hi. apply emit_nothing_delivered, sdk_log_quiet.
Qed.


(** With no callback registered, [notifySync] on an active SDK is
    [sendNotice] on the notice it builds: the ignore-list plays no part. *)
Lemma notifySync_sends w c this error options :
  config w = Some c -> client w = Some this -> shouldNotify w = true ->
  Configuration.beforeNotify c = [] ->
  let sent :=
    Client.sendNotice browser this (buildNotice browser sanitize c w error options) in
  fst (notifySync browser sanitize error options w) = fst sent
  /\ trace (snd (notifySync browser sanitize error options w)) = trace w ++ snd sent.
Proof.
  intros Hc Hclient Hactive Hcbs sent. unfold notifySync.
  rewrite Hactive, Hc. cbn [negb]. unfold runBeforeNotifyCallbacks.
  rewrite Hc, Hcbs. cbn [runCallbacks negb]. unfold with_client, emit.
  cbn [client draining trace]. rewrite Hclient. cbn [Client.self]. subst sent.
  destruct (Client.sendNotice browser this _) as [result effects].
  cbn [fst snd Client.emit Client.trace trace].
  rewrite app_nil_r. split; reflexivity.
Qed.

End SdkFacts.

(** A notice that passed the callbacks is handed to the client. *)
Section DeliveryFacts.
Variable browser : Browser.





End DeliveryFacts.



(** C2, on the code. With [ignoredExceptions: ['CustomError']], an
    error of that class is dropped by [notify] (nothing is queued or
    sent) but [notifySync] builds the notice and transmits it: the
    ignore-list is never consulted on that path. *)
Theorem notifySync_skips_ignore_list :
  let w := Sdk.configure Examples.browser_without_beacon Examples.options Sdk.initial in
  let payload :=
    Notice.toPayload Examples.rt
      (Notice.createNotice Examples.rt Examples.custom
         {| Notice.o_context := Some ∅; Notice.o_request := Some ∅;
            Notice.o_user := Some ∅; Notice.o_fingerprint := None;
            Notice.o_tags := None;
            Notice.o_environment := Some (js "production") |}) in
  Sdk.shouldNotify w = true
  /\ Configuration.shouldIgnore Examples.config (js "CustomError") (js "boom") = true
  /\ Sdk.trace w = []
  /\ Sdk.trace
       (Sdk.notify Examples.browser_without_beacon Examples.no_filter
          Examples.custom Sdk.no_options w) = []
  /\ fst (Sdk.notifySync Examples.browser_without_beacon Examples.no_filter
            Examples.custom Sdk.no_options w)
     = Returned (Some Examples.ack)
  /\ Sdk.trace
       (snd (Sdk.notifySync Examples.browser_without_beacon Examples.no_filter
               Examples.custom Sdk.no_options w))
     = [Fetch payload].
Proof. vm_compute. repeat split. Qed.

(** C9. When [enabled] is not given, the configuration is enabled
    exactly when its environment is production or staging. In any other
    environment, whatever the API key, [notify], [notifySync] and the two
    handlers of unhandled signals return at once: the state is unchanged,
    nothing is logged, queued or sent, and [notifySync] resolves to null.
    A page served from localhost, with no environment given, is in
    development. *)
Theorem enabled_by_default (page : option Window)
    (options : Configuration.ConfigOptions) :
  Configuration.o_enabled options = None ->
  let c := Configuration.new page options in
  (Configuration.enabled c = true
   <-> Configuration.environment c = js "production"
       \/ Configuration.environment c = js "staging")
  /\ (Configuration.environment c <> js "production" ->
      Configuration.environment c <> js "staging" ->
      forall browser sanitize w,
        Sdk.config w = Some c ->
        (forall error o, Sdk.notify browser sanitize error o w = w)
        /\ (forall error o,
              Sdk.notifySync browser sanitize error o w = (Returned None, w))
        /\ (forall message source lineno colno error,
              Sdk.handleUnhandledError browser sanitize
                message source lineno colno error w = w)
        /\ (forall reason, Sdk.handleUnhandledRejection browser sanitize reason w = w))
  /\ (Configuration.o_environment options = None ->
      forall p, page = Some p ->
        hostname p = Some (js "localhost") \/ hostname p = Some (js "127.0.0.1") ->
        Configuration.environment c = js "development").
Proof.
  intros Hopt c.
  assert (Configuration.enabled c = true
          <-> Configuration.environment c = js "production"
              \/ Configuration.environment c = js "staging") as Hen
    by (apply enabled_default; exact Hopt).
  split; [exact Hen|]. split.
  - intros Hp Hs browser sanitize w Hc. apply not_enabled_silent.
    unfold Sdk.shouldNotify. rewrite Hc.
    destruct (Sdk.client w); [|reflexivity].
    assert (Configuration.enabled c = false) as ->; [|apply andb_false_r].
    apply not_true_is_false. intros E. apply Hen in E as [E|E]; contradiction.
  - intros Henv p -> Hhost. unfold c, Configuration.new.
    cbn [Configuration.environment]. rewrite Henv.
    unfold Configuration.detectEnvironment.
    destruct Hhost as [-> | ->]; reflexivity.
Qed.

Lemma enabled_by_default_witness :
  let w := Sdk.configure Examples.browser_local Examples.options Sdk.initial in
  Configuration.environment
    (Configuration.new (window Examples.browser_local) Examples.options)
  = js "development"
  /\ Sdk.notify Examples.browser_local Examples.no_filter Examples.boom
       Sdk.no_options w = w
  /\ Sdk.notifySync Examples.browser_local Examples.no_filter Examples.boom
       Sdk.no_options w = (Returned None, w).
Proof.
  intros w.
  destruct (enabled_by_default (window Examples.browser_local) Examples.options eq_refl)
    as (_ & Hsilent & Hdev).
  split; [apply (Hdev eq_refl Examples.local_page eq_refl); left; reflexivity|].
  destruct (Hsilent ltac:(vm_compute; discriminate) ltac:(vm_compute; discriminate)
              Examples.browser_local Examples.no_filter w eq_refl)
    as (Hnotify & Hsync & _).
  split; [apply Hnotify|apply Hsync].
Defined.

(** C10. Every configuration carries the built-in entries in front of
    the user's, in the ignore-list and in the list of sensitive keys.
    Whatever the options, [shouldIgnore] holds of a message that is one
    of the two ResizeObserver texts or is matched by the Script error
    pattern (that is, is [Script error] with or without a final dot),
    [notify] and the handlers of unhandled errors and rejections then
    queue and send nothing, and [password], [token] and [authorization] are among the
    keys to filter. *)
Theorem defaults_always_applied (page : option Window)
    (options : Configuration.ConfigOptions) :
  let c := Configuration.new page options in
  Configuration.ignoredExceptions c
  = Configuration.DEFAULT_IGNORED_EXCEPTIONS
      ++ default [] (Configuration.o_ignoredExceptions options)
  /\ Configuration.filterKeys c
     = Configuration.DEFAULT_FILTER_KEYS
         ++ default [] (Configuration.o_filterKeys options)
  /\ (forall message,
        Regex.test Configuration.SCRIPT_ERROR message = true
        <-> message = js "Script error" \/ message = js "Script error.")
  /\ (forall errorClass message,
        message = js "ResizeObserver loop limit exceeded"
        \/ message = js "ResizeObserver loop completed with undelivered notifications"
        \/ Regex.test Configuration.SCRIPT_ERROR message = true ->
        Configuration.shouldIgnore c errorClass message = true
        /\ forall browser sanitize w,
             Sdk.config w = Some c ->
             (forall name stack o,
                nothing_delivered w
                  (Sdk.notify browser sanitize (mkError name message stack) o w))
             /\ (forall source lineno colno error,
                   nothing_delivered w
                     (Sdk.handleUnhandledError browser sanitize
                        message source lineno colno error w))
             /\ nothing_delivered w
                  (Sdk.handleUnhandledRejection browser sanitize
                     (Sdk.ReasonString message) w))
  /\ js "password" ∈ Configuration.filterKeys c
  /\ js "token" ∈ Configuration.filterKeys c
  /\ js "authorization" ∈ Configuration.filterKeys c.
Proof.
  intros c. split; [reflexivity|]. split; [reflexivity|].
  split; [exact SCRIPT_ERROR_spec|]. split.
  - intros errorClass message H.
    split; [apply default_ignored; exact H|].
    intros browser sanitize w Hc. split; [|split].
    + intros name stack o. apply (notify_ignored browser sanitize w c); [exact Hc|].
      cbn [err_name err_message].
      assert (str_or message (js "Unknown error") = message) as ->.
      { destruct H as [-> | [-> | H]]; [reflexivity|reflexivity|].
        apply SCRIPT_ERROR_spec in H as [-> | ->]; reflexivity. }
      apply default_ignored. exact H.
    + intros source lineno colno error. unfold Sdk.handleUnhandledError.
      destruct (Sdk.shouldNotify w); [|apply nothing_delivered_refl].
      cbn [negb]. rewrite Hc.
      unfold c. rewrite default_ignored by exact H. apply nothing_delivered_refl.
    + unfold Sdk.handleUnhandledRejection.
      destruct (Sdk.shouldNotify w); [|apply nothing_delivered_refl].
      cbn [negb err_name err_message]. rewrite Hc.
      unfold c. rewrite default_ignored by exact H. apply nothing_delivered_refl.
  - unfold c, Configuration.new. cbn [Configuration.filterKeys].
    repeat split; apply elem_of_app; left; apply list_elem_of_In; vm_compute; tauto.
Qed.

Lemma defaults_always_applied_witness :
  Configuration.shouldIgnore Examples.config (js "Error")
    (js "ResizeObserver loop limit exceeded") = true
  /\ Configuration.shouldIgnore Examples.config (js "Error") (js "Script error.") = true.
Proof.
  split.
  - apply (defaults_always_applied (window Examples.browser) Examples.options).
    left. reflexivity.
  - apply (defaults_always_applied (window Examples.browser) Examples.options).
    right. right. vm_compute. reflexivity.
Defined.

(** ** End-to-end scenarios *)

(** A plain error reported on a configured production page: one POST,
    carrying the class, the message, the environment and the notifier. *)
Example notify_end_to_end :
  let w :=
    Sdk.notify Examples.browser Examples.no_filter Examples.boom Sdk.no_options
      (Sdk.configure Examples.browser Examples.options Sdk.initial) in
  exists payload,
    Sdk.trace w = [Fetch payload]
    /\ Sdk.draining w = [payload]
    /\ Notice.p_class (Notice.p_error payload) = js "Error"
    /\ Notice.p_message (Notice.p_error payload) = js "boom"
    /\ Notice.p_context payload !! js "environment" = Some (JStr (js "production"))
    /\ Notice.name (Notice.p_notifier payload) = js "@checkend/browser".
Proof. eexists. vm_compute. repeat split. Qed.

(** A server that rate limits: the drain resolves, logs a warning and
    leaves nothing behind to retry. *)
Example rate_limited_end_to_end :
  let w :=
    Client.run Examples.browser_declining
      [Client.Enqueue (Examples.notice "boom");
       Client.Settle 0 (FetchResolved Examples.rate_limited)]
      (Client.init Examples.config) in
  Client.queue (Client.self w) = []
  /\ Client.draining w = []
  /\ Client.sending (Client.self w) = false
  /\ Client.trace w
     = [Fetch (Notice.toPayload Examples.rt (Examples.notice "boom"));
        Console ConsoleWarn MsgRateLimited].
Proof. vm_compute. repeat split. Qed.

(* ===================================================================== *)
(** * Further properties of the code *)
(* ===================================================================== *)

(** ** configuration.ts *)

Lemma includes_spec p s : includes p s = true <-> exists a b, s = a ++ p ++ b.
Proof.
  induction s as [|c s IH]; simpl.
  - rewrite orb_false_r, startsWith_spec. split.
    + intros (q & E). exists [], q. exact E.
    + intros (a & b & E). destruct a as [|x a]; [|discriminate E]. eauto.
  - rewrite orb_true_iff, startsWith_spec, IH. split.
    + intros [(q & ->)|(a & b & ->)]; [exists [], q|exists (c :: a), b]; reflexivity.
    + intros (a & b & E). destruct a as [|x a]; simpl in E.
      * left. eauto.
      * injection E as -> ->. right. eauto.
Qed.

Lemma truthy_spec (s : jsstring) : truthy s = true <-> s <> [].
Proof. destruct s; simpl; split; congruence. Qed.

(** A configuration is valid exactly when the API key is not empty and
    the endpoint was not given as the empty string: the default endpoint
    makes a key alone enough. *)
Theorem isValid_new (page : option Window) (options : Configuration.ConfigOptions) :
  Configuration.isValid (Configuration.new page options) = true
  <-> Configuration.o_apiKey options <> []
      /\ Configuration.o_endpoint options <> Some [].
Proof.
  unfold Configuration.isValid, Configuration.new.
  cbn [Configuration.apiKey Configuration.endpoint].
  rewrite andb_true_iff, !truthy_spec.
  destruct (Configuration.o_endpoint options) as [e|].
  - change (default Configuration.DEFAULT_ENDPOINT (Some e)) with e.
    split; intros [H1 H2]; (split; [exact H1|]).
    + intros [= E]. contradiction.
    + intros E. apply H2. rewrite E. reflexivity.
  - split; intros [H1 H2]; (split; [exact H1|discriminate]).
Qed.

Lemma isValid_new_witness :
  Configuration.isValid (Configuration.new None Examples.options) = true.
Proof.
  apply (isValid_new None Examples.options). split; discriminate.
Defined.

(** The environment detected from the page is one of three. Without a
    window it is production. With one, it is development exactly on
    localhost and 127.0.0.1, and staging exactly on any other host
    whose name contains [staging] or [stage]; a missing hostname counts
    as the empty name. *)
Theorem detectEnvironment_cases (page : option Window) :
  let env := Configuration.detectEnvironment page in
  (env = js "development" \/ env = js "staging" \/ env = js "production")
  /\ (page = None -> env = js "production")
  /\ (forall w, page = Some w ->
      let host := default [] (hostname w) in
      let local := host = js "localhost" \/ host = js "127.0.0.1" in
      let staged :=
        (exists a b, host = a ++ js "staging" ++ b)
        \/ (exists a b, host = a ++ js "stage" ++ b) in
      (env = js "development" <-> local)
      /\ (env = js "staging" <-> ~ local /\ staged)
      /\ (env = js "production" <-> ~ local /\ ~ staged)).
Proof.
  intros env. unfold env, Configuration.detectEnvironment.
  split; [|split; [intros ->; reflexivity|]].
  - destruct page as [w|]; [|auto]. repeat case_if; auto.
  - intros w ->. set (host := default [] (hostname w)).
    set (local := host = js "localhost" \/ host = js "127.0.0.1").
    set (staged := (exists a b, host = a ++ js "staging" ++ b)
                   \/ (exists a b, host = a ++ js "stage" ++ b)).
    assert (str_eqb host (js "localhost") || str_eqb host (js "127.0.0.1") = true
            <-> local) as Hlocal
      by (rewrite orb_true_iff, !str_eqb_eq; reflexivity).
    assert (includes (js "staging") host || includes (js "stage") host = true
            <-> staged) as Hstaged
      by (rewrite orb_true_iff, !includes_spec; reflexivity).
    destruct (str_eqb host (js "localhost") || str_eqb host (js "127.0.0.1")).
    + assert local as Hl by (apply Hlocal; reflexivity).
      repeat split; try discriminate; try tauto.
    + assert (~ local) as Hl by (intros H; apply Hlocal in H; discriminate).
      destruct (includes (js "staging") host || includes (js "stage") host).
      * assert staged as Hs by (apply Hstaged; reflexivity).
        repeat split; try discriminate; try tauto.
      * assert (~ staged) as Hs by (intros H; apply Hstaged in H; discriminate).
        repeat split; try discriminate; try tauto.
Qed.

Lemma detectEnvironment_cases_witness :
  Configuration.detectEnvironment
    (Some {| hostname := Some (js "stage.example.com"); requestInfo := ∅ |})
  = js "staging".
Proof.
  destruct (detectEnvironment_cases
              (Some {| hostname := Some (js "stage.example.com"); requestInfo := ∅ |}))
    as (_ & _ & H).
  destruct (H _ eq_refl) as (_ & Hs & _). apply Hs. split.
  - intros [E|E]; discriminate E.
  - right. exists [], (js ".example.com"). reflexivity.
Defined.

(** With the built-in entries and string entries of the user, the
    ignore-list does not tell the class from the message: every entry
    is tried on both, so swapping them changes nothing. An entry meant
    for a class also silences any error whose message is that text. *)
Theorem shouldIgnore_symmetric (page : option Window)
    (options : Configuration.ConfigOptions) (a b : jsstring) :
  Forall (fun pattern => exists s, pattern = PString s)
    (default [] (Configuration.o_ignoredExceptions options)) ->
  Configuration.shouldIgnore (Configuration.new page options) a b
  = Configuration.shouldIgnore (Configuration.new page options) b a.
Proof.
  intros Hstrings.
  rewrite !(shouldIgnore_app (Configuration.new page options)
              Configuration.DEFAULT_IGNORED_EXCEPTIONS
              (default [] (Configuration.o_ignoredExceptions options)))
    by reflexivity.
  f_equal.
  - unfold Configuration.DEFAULT_IGNORED_EXCEPTIONS. cbn [existsb].
    rewrite (orb_comm (str_eqb a _)), (orb_comm (str_eqb a _)),
      (orb_comm (Regex.test _ a)). reflexivity.
  - induction Hstrings as [|pattern rest (s & ->) _ IH]; [reflexivity|].
    cbn [existsb]. rewrite IH, (orb_comm (str_eqb a s)). reflexivity.
Qed.

Lemma shouldIgnore_symmetric_witness :
  Configuration.shouldIgnore Examples.config (js "CustomError") (js "boom") = true
  /\ Configuration.shouldIgnore Examples.config (js "boom") (js "CustomError") = true.
Proof.
  split; [reflexivity|].
  unfold Examples.config.
  rewrite <- (shouldIgnore_symmetric (window Examples.browser) Examples.options).
  - reflexivity.
  - repeat constructor. eexists. reflexivity.
Defined.

(** ** notice.ts *)

Lemma truncateMessage_length (message : jsstring) :
  (str_length (Notice.truncateMessage message) <= Notice.MAX_MESSAGE_LENGTH)%Z.
Proof.
  unfold Notice.truncateMessage, Notice.MAX_MESSAGE_LENGTH.
  destruct message as [|c m]; [unfold str_length; simpl; lia|]. cbn [truthy negb].
  destruct (Z.leb_spec (str_length (c :: m)) 10000); [assumption|].
  rewrite substring_prefix by lia.
  unfold str_length in *. rewrite length_app, length_take.
  change (length (js "...")) with 3%nat. lia.
Qed.

Lemma truncateMessage_short (message : jsstring) :
  (str_length message <= Notice.MAX_MESSAGE_LENGTH)%Z ->
  Notice.truncateMessage message = message.
Proof.
  unfold Notice.truncateMessage. intros H.
  destruct message as [|c m]; [reflexivity|]. cbn [truthy negb].
  destruct (Z.leb_spec (str_length (c :: m)) Notice.MAX_MESSAGE_LENGTH);
    [reflexivity|lia].
Qed.

Lemma truncateMessage_nonempty (message : jsstring) :
  message <> [] -> Notice.truncateMessage message <> [].
Proof.
  unfold Notice.truncateMessage. intros H.
  destruct message as [|c m]; [contradiction|]. cbn [truthy negb].
  destruct (str_length (c :: m) <=? Notice.MAX_MESSAGE_LENGTH)%Z; [discriminate|].
  intros E. apply app_eq_nil in E as [_ E]. discriminate E.
Qed.

Lemma parseBacktrace_length (stack : option jsstring) :
  length (Notice.parseBacktrace stack) <= 100.
Proof.
  destruct stack as [[|c stack]|]; [simpl; lia| |simpl; lia].
  rewrite parseBacktrace_frames by discriminate.
  destruct (List.filter _ (split 10 (c :: stack))) as [|l ls].
  - etransitivity; [apply List.filter_length_le|].
    rewrite length_map, length_take. lia.
  - rewrite length_take. lia.
Qed.

Lemma str_or_nonempty (a b : jsstring) : b <> [] -> str_or a b <> [].
Proof. unfold str_or. destruct a; simpl; [auto|discriminate]. Qed.

(** Truncating twice is truncating once. *)
Theorem truncateMessage_idempotent (message : jsstring) :
  Notice.truncateMessage (Notice.truncateMessage message)
  = Notice.truncateMessage message.
Proof. apply truncateMessage_short, truncateMessage_length. Qed.

(** Whatever the error and the options, a notice built by either
    constructor has a class that is not empty, a message of at most
    10,000 units and a backtrace of at most 100 frames; the message of a
    notice built from an error object is never empty. *)
Theorem notice_bounds (rt : Notice.Runtime) (options : Notice.Options) :
  (forall error,
     let n := Notice.createNotice rt error options in
     Notice.errorClass n <> []
     /\ Notice.message n <> []
     /\ (str_length (Notice.message n) <= 10000)%Z
     /\ length (Notice.backtrace n) <= 100)
  /\ (forall message source lineno colno error,
     let n := Notice.createNoticeFromRaw rt message source lineno colno error options in
     Notice.errorClass n <> []
     /\ (str_length (Notice.message n) <= 10000)%Z
     /\ length (Notice.backtrace n) <= 100).
Proof.
  split.
  - intros error n. unfold n, Notice.createNotice.
    cbn [Notice.errorClass Notice.message Notice.backtrace].
    split; [apply str_or_nonempty; discriminate|].
    split; [apply truncateMessage_nonempty, str_or_nonempty; discriminate|].
    split; [apply truncateMessage_length|apply parseBacktrace_length].
  - intros message source lineno colno error n. unfold n, Notice.createNoticeFromRaw.
    destruct error as [e|].
    + cbn [Notice.errorClass Notice.message Notice.backtrace].
      split; [apply str_or_nonempty; discriminate|].
      split; [apply truncateMessage_length|apply parseBacktrace_length].
    + destruct source as [[|c s]|];
        cbn [Notice.errorClass Notice.message Notice.backtrace];
        (split; [discriminate|split; [apply truncateMessage_length|simpl; lia]]).
Qed.

Lemma sublist_filter_bool {A} (f : A -> bool) (l : list A) :
  List.filter f l `sublist_of` l.
Proof.
  induction l as [|x l IH]; simpl; [constructor|].
  destruct (f x); [apply sublist_skip|apply sublist_cons]; exact IH.
Qed.

Lemma sublist_map {A B} (f : A -> B) (l k : list A) :
  l `sublist_of` k -> map f l `sublist_of` map f k.
Proof. induction 1; simpl; constructor; assumption. Qed.

Lemma startsWithFrameMarker_nonempty (t : jsstring) :
  startsWithFrameMarker t = true -> t <> [].
Proof. intros H ->. discriminate H. Qed.

(** The frames of a backtrace are trimmed lines of the stack trace, in
    the order of the trace, and none of them is empty. *)
Theorem parseBacktrace_provenance (stack : jsstring) :
  Notice.parseBacktrace (Some stack) `sublist_of` map trim (split 10 stack)
  /\ Forall (fun frame => frame <> []) (Notice.parseBacktrace (Some stack)).
Proof.
  destruct stack as [|c stack]; [split; [apply sublist_nil_l|constructor]|].
  rewrite parseBacktrace_frames by discriminate.
  set (lines := split 10 (c :: stack)).
  destruct (List.filter _ lines) as [|l ls] eqn:E.
  - split.
    + etransitivity; [apply sublist_filter_bool|].
      apply sublist_map, sublist_take.
    + apply Forall_forall. intros frame Hin. apply list_elem_of_In in Hin.
      apply filter_In in Hin as [_ Hin]. apply truthy_spec. exact Hin.
  - rewrite <- E. split.
    + etransitivity; [apply sublist_take|].
      apply sublist_map, sublist_filter_bool.
    + apply Forall_take, Forall_map, Forall_forall. intros line Hin.
      apply list_elem_of_In in Hin. apply filter_In in Hin as [_ Hin].
      apply startsWithFrameMarker_nonempty. exact Hin.
Qed.

Lemma toPayload_environment (rt : Notice.Runtime) (notice : Notice.t) env :
  Notice.environment notice = Some env -> env <> [] ->
  Notice.p_context (Notice.toPayload rt notice)
  = <[ js "environment" := JStr env ]> (Notice.context notice).
Proof.
  intros He Hne. unfold Notice.toPayload. cbn [Notice.p_context]. rewrite He.
  destruct env as [|x env]; [contradiction|].
  unfold spread. rewrite insert_union_singleton_l. reflexivity.
Qed.

(** The payload of a notice: the tags are left out exactly when there
    are none; a non-empty environment is put into the context under
    [environment], over whatever the context had there; every other
    member of the context, the request and the user go through as they
    are; without an environment the context is unchanged. *)
Theorem toPayload_fields (rt : Notice.Runtime) (notice : Notice.t) :
  let p := Notice.toPayload rt notice in
  (Notice.p_tags (Notice.p_error p) = None <-> Notice.tags notice = [])
  /\ (Notice.tags notice <> [] ->
      Notice.p_tags (Notice.p_error p) = Some (Notice.tags notice))
  /\ (forall env,
      Notice.environment notice = Some env -> env <> [] ->
      Notice.p_context p !! js "environment" = Some (JStr env))
  /\ (forall key,
      key <> js "environment" ->
      Notice.p_context p !! key = Notice.context notice !! key)
  /\ (Notice.environment notice = None \/ Notice.environment notice = Some [] ->
      Notice.p_context p = Notice.context notice)
  /\ Notice.p_request p = Notice.request notice
  /\ Notice.p_user p = Notice.user notice.
Proof.
  intros p. unfold p, Notice.toPayload.
  cbn [Notice.p_tags Notice.p_error Notice.p_context Notice.p_request Notice.p_user].
  split; [|split; [|split; [|split; [|split; [|split; reflexivity]]]]].
  - destruct (Notice.tags notice); simpl; split; congruence.
  - destruct (Notice.tags notice); simpl; congruence.
  - intros env -> Hne. destruct env as [|c env]; [contradiction|].
    unfold spread. apply lookup_union_Some_l. apply lookup_singleton_eq.
  - intros key Hkey. unfold spread.
    destruct (Notice.environment notice) as [[|c env]|].
    + rewrite (left_id_L ∅ (∪)). reflexivity.
    + rewrite lookup_union_r; [reflexivity|].
      apply lookup_singleton_ne. congruence.
    + rewrite (left_id_L ∅ (∪)). reflexivity.
  - unfold spread. intros [-> | ->]; apply (left_id_L ∅ (∪)).
Qed.

Lemma toPayload_fields_witness :
  let n :=
    Notice.createNotice Examples.rt Examples.boom
      {| Notice.o_context :=
           Some {[ js "environment" := JStr (js "mine"); js "orderId" := JNum 123 ]};
         Notice.o_request := None; Notice.o_user := None;
         Notice.o_fingerprint := None; Notice.o_tags := None;
         Notice.o_environment := Some (js "production") |} in
  Notice.p_context (Notice.toPayload Examples.rt n) !! js "environment"
  = Some (JStr (js "production"))
  /\ Notice.p_context (Notice.toPayload Examples.rt n) !! js "orderId"
     = Some (JNum 123).
Proof.
  intros n. destruct (toPayload_fields Examples.rt n) as (_ & _ & He & Hk & _).
  split.
  - apply He; [reflexivity|discriminate].
  - rewrite Hk; [reflexivity|vm_compute; discriminate].
Defined.

Section JsVersionFacts.
Import Regex.

#[local] Hint Constructors matches : core.

Lemma match_anywhere_spec to_end r s :
  match_anywhere to_end r s = true <->
  exists a p q, s = a ++ p ++ q /\ matches r p /\ (to_end = true -> q = []).
Proof.
  induction s as [|c s IH]; simpl.
  - rewrite orb_false_r, nullable_spec. split.
    + intros H. exists [], [], []. split; [reflexivity|split; [exact H|reflexivity]].
    + intros (a & p & q & E & H & _). destruct a; [|discriminate E].
      destruct p; [exact H|discriminate E].
  - rewrite orb_true_iff, IH.
    change (negb to_end && nullable r || match_here to_end (deriv c r) s = true)
      with (match_here to_end r (c :: s) = true).
    rewrite match_here_spec. split.
    + intros [(p & q & E & H & Hq)|(a & p & q & E & H & Hq)].
      * exists [], p, q. split; [exact E|split; assumption].
      * exists (c :: a), p, q. rewrite E. split; [reflexivity|split; assumption].
    + intros (a & p & q & E & H & Hq). destruct a as [|x a]; simpl in E.
      * left. exists p, q. split; [exact E|split; assumption].
      * injection E as -> ->. right. exists a, p, q.
        split; [reflexivity|split; assumption].
Qed.

Lemma matches_one_of (names : list jsstring) (s : jsstring) :
  matches (fold_right (fun name r => RAlt (RLit name) r) RFail names) s
  <-> In s names.
Proof.
  induction names as [|name names IH]; simpl.
  - split; [apply matches_fail_inv|tauto].
  - split.
    + intros H. apply matches_alt_inv in H as [H|H].
      * left. apply matches_lit in H. congruence.
      * right. apply IH, H.
    + intros [<- | H]; [apply MAltL, matches_lit; reflexivity|apply MAltR, IH, H].
Qed.

Lemma matches_DIGIT s :
  matches Notice.DIGIT s <-> exists c, s = [c] /\ Notice.is_digit c = true.
Proof.
  unfold Notice.DIGIT. cbn [fold_right]. split.
  - intros H.
    repeat (apply matches_alt_inv in H as [H|H];
            [apply matches_atom_inv in H as (c & -> & Hc); simpl in Hc;
             apply N.eqb_eq in Hc as ->; eexists; split; reflexivity|]).
    destruct (matches_fail_inv _ H).
  - intros (c & -> & Hc). unfold Notice.is_digit in Hc.
    apply andb_true_iff in Hc as [Hlo Hhi].
    apply N.leb_le in Hlo, Hhi.
    assert (c = 48 \/ c = 49 \/ c = 50 \/ c = 51 \/ c = 52 \/ c = 53 \/ c = 54
            \/ c = 55 \/ c = 56 \/ c = 57)%N as Hc by lia.
    repeat (destruct Hc as [-> | Hc];
            [repeat (first [apply MAltL; constructor; reflexivity|apply MAltR])|]).
    subst c. repeat (first [apply MAltL; constructor; reflexivity|apply MAltR]).
Qed.

Lemma matches_star_digits s :
  matches (RStar Notice.DIGIT) s <-> forallb Notice.is_digit s = true.
Proof.
  split.
  - intros H. remember (RStar Notice.DIGIT) as r eqn:Er.
    induction H as [| | | | | |r0 s1 s2 H1 _ H2 IH2]; try discriminate; [reflexivity|].
    injection Er as ->. apply matches_DIGIT in H1 as (c & -> & Hc).
    simpl. rewrite Hc. auto.
  - induction s as [|c s IH]; simpl; [constructor|].
    intros H. apply andb_true_iff in H as [Hc H].
    apply (MStarApp _ [c] s); [apply matches_DIGIT; eauto|auto].
Qed.

Lemma matches_BROWSER_VERSION p :
  matches (body Notice.BROWSER_VERSION) p <->
  exists name digits,
    p = name ++ js "/" ++ digits /\ In name Notice.BROWSER_NAMES
    /\ digits <> [] /\ forallb Notice.is_digit digits = true.
Proof.
  unfold Notice.BROWSER_VERSION; cbn [body]. split.
  - intros H. apply matches_seq_inv in H as (name & rest & -> & Hn & H).
    apply matches_one_of in Hn.
    apply matches_seq_inv in H as (slash & ds & -> & Hs & H).
    apply matches_atom_inv in Hs as (c & -> & Hc). simpl in Hc.
    apply N.eqb_eq in Hc as ->.
    apply matches_seq_inv in H as (d & ds' & -> & Hd & Hds).
    apply matches_DIGIT in Hd as (c & -> & Hc). apply matches_star_digits in Hds.
    exists name, (c :: ds'). repeat split; [exact Hn|discriminate|].
    simpl. rewrite Hc. exact Hds.
  - intros (name & digits & -> & Hn & Hne & Hd).
    constructor; [apply matches_one_of, Hn|].
    apply (MSeq _ _ [47%N] digits); [constructor; reflexivity|].
    destruct digits as [|c ds]; [contradiction|]. simpl in Hd.
    apply andb_true_iff in Hd as [Hc Hds].
    apply (MSeq _ _ [c] ds); [apply matches_DIGIT; eauto|].
    apply matches_star_digits, Hds.
Qed.

End JsVersionFacts.

Lemma takeDigits_split s :
  exists rest,
    s = Notice.takeDigits s ++ rest
    /\ forallb Notice.is_digit (Notice.takeDigits s) = true
    /\ match rest with c :: _ => Notice.is_digit c = false | [] => True end.
Proof.
  induction s as [|c s (rest & E & Hd & Hr)]; simpl.
  - exists []. auto.
  - destruct (Notice.is_digit c) eqn:Ec.
    + exists rest. simpl. rewrite Ec. repeat split; [congruence|exact Hd|exact Hr].
    + exists (c :: s). auto.
Qed.

Lemma takeDigits_app digits rest :
  digits <> [] -> forallb Notice.is_digit digits = true ->
  Notice.takeDigits (digits ++ rest) <> [].
Proof.
  destruct digits as [|c ds]; [contradiction|]. simpl. intros _ H.
  apply andb_true_iff in H as [-> _]. discriminate.
Qed.

Lemma drop_prefix (p q : jsstring) n : n = length p -> drop n (p ++ q) = q.
Proof. intros ->. apply drop_app_length. Qed.

Lemma versionHere_Some names s v :
  Notice.versionHere names s = Some v ->
  exists name digits rest,
    In name names /\ v = name ++ js "/" ++ digits /\ s = v ++ rest
    /\ digits <> [] /\ forallb Notice.is_digit digits = true
    /\ match rest with c :: _ => Notice.is_digit c = false | [] => True end.
Proof.
  induction names as [|name names IH]; cbn [Notice.versionHere In]; [discriminate|].
  destruct (startsWith (name ++ js "/") s) eqn:Es.
  - apply startsWith_spec in Es as (q & ->).
    rewrite (drop_prefix (name ++ js "/") q)
      by (rewrite length_app; reflexivity).
    destruct (takeDigits_split q) as (rest & Eq & Hd & Hr).
    destruct (Notice.takeDigits q) as [|d ds] eqn:Et.
    + intros H. destruct (IH H) as (n & dg & r & Hin & Hrest).
      exists n, dg, r. split; [right; exact Hin|exact Hrest].
    + intros [= <-]. exists name, (d :: ds), rest.
      split; [left; reflexivity|]. split; [reflexivity|].
      split; [|split; [discriminate|split; [exact Hd|exact Hr]]].
      rewrite Eq at 1. rewrite <- !app_assoc. reflexivity.
  - intros H. destruct (IH H) as (n & dg & r & Hin & Hrest).
    exists n, dg, r. split; [right; exact Hin|exact Hrest].
Qed.

Lemma versionHere_None names s :
  Notice.versionHere names s = None ->
  forall name digits rest,
    In name names -> digits <> [] -> forallb Notice.is_digit digits = true ->
    s <> name ++ js "/" ++ digits ++ rest.
Proof.
  induction names as [|name names IH]; cbn [Notice.versionHere In]; [tauto|].
  intros H n digits rest [<- | Hin] Hne Hd E.
  - assert (startsWith (name ++ js "/") s = true) as Es
      by (apply startsWith_spec; exists (digits ++ rest); rewrite E, <- app_assoc;
          reflexivity).
    rewrite Es in H.
    assert (drop (length name + 1) s = digits ++ rest) as Ed.
    { rewrite E, app_assoc.
      apply drop_prefix. rewrite length_app. reflexivity. }
    rewrite Ed in H. pose proof (takeDigits_app digits rest Hne Hd) as Ht.
    destruct (Notice.takeDigits (digits ++ rest)); [contradiction|discriminate].
  - destruct (startsWith (name ++ js "/") s).
    + destruct (Notice.takeDigits _); [|discriminate].
      apply (IH H n digits rest Hin Hne Hd E).
    + apply (IH H n digits rest Hin Hne Hd E).
Qed.

Lemma firstVersion_unfold ua :
  Notice.firstVersion ua
  = match Notice.versionHere Notice.BROWSER_NAMES ua with
    | Some v => Some v
    | None =>
        match ua with
        | [] => None
        | _ :: ua' => Notice.firstVersion ua'
        end
    end.
Proof. destruct ua; reflexivity. Qed.

Lemma firstVersion_Some ua v :
  Notice.firstVersion ua = Some v ->
  exists before name digits rest,
    ua = before ++ v ++ rest /\ In name Notice.BROWSER_NAMES
    /\ v = name ++ js "/" ++ digits
    /\ digits <> [] /\ forallb Notice.is_digit digits = true
    /\ match rest with c :: _ => Notice.is_digit c = false | [] => True end.
Proof.
  induction ua as [|c ua IH]; rewrite firstVersion_unfold.
  - destruct (Notice.versionHere Notice.BROWSER_NAMES []) eqn:E; [|discriminate].
    apply versionHere_Some in E as (name & digits & rest & _ & -> & E & _).
    destruct name; discriminate E.
  - destruct (Notice.versionHere Notice.BROWSER_NAMES (c :: ua)) as [v'|] eqn:E.
    + intros [= ->]. apply versionHere_Some in E
        as (name & digits & rest & Hin & Hv & Hs & Hrest).
      exists [], name, digits, rest. repeat split; try tauto.
    + intros H. destruct (IH H) as (before & name & digits & rest & -> & Hrest).
      exists (c :: before), name, digits, rest. repeat split; tauto.
Qed.

Lemma firstVersion_None ua :
  Notice.firstVersion ua = None ->
  Regex.test Notice.BROWSER_VERSION ua = false.
Proof.
  intros H. apply not_true_is_false. intros Ht.
  unfold Regex.test in Ht. cbn in Ht.
  change (Regex.match_anywhere false (Regex.body Notice.BROWSER_VERSION) ua = true)
    in Ht.
  apply match_anywhere_spec in Ht as (a & p & q & -> & Hp & _).
  apply matches_BROWSER_VERSION in Hp as (name & digits & -> & Hin & Hne & Hd).
  revert H. induction a as [|x a IH]; rewrite firstVersion_unfold; cbn [app].
  - destruct (Notice.versionHere _ _) eqn:E; [discriminate|].
    intros _. apply (versionHere_None _ _ E name digits q Hin Hne Hd).
    rewrite <- !app_assoc. reflexivity.
  - destruct (Notice.versionHere _ _); [discriminate|]. exact IH.
Qed.

(** [getJsVersion] answers [unknown] when there is no user agent or
    the pattern matches nowhere in it; otherwise it answers the leftmost
    match: a part of the user agent made of one of the five browser
    names, a slash, and all the digits that follow. *)
Theorem getJsVersion_spec (userAgent : option jsstring) :
  let v := Notice.getJsVersion userAgent in
  (v = js "unknown"
   /\ forall ua, userAgent = Some ua -> Regex.test Notice.BROWSER_VERSION ua = false)
  \/ (exists ua before name digits rest,
        userAgent = Some ua /\ ua = before ++ v ++ rest
        /\ In name Notice.BROWSER_NAMES /\ v = name ++ js "/" ++ digits
        /\ digits <> [] /\ forallb Notice.is_digit digits = true
        /\ match rest with c :: _ => Notice.is_digit c = false | [] => True end).
Proof.
  intros v. unfold v, Notice.getJsVersion.
  destruct userAgent as [[|c ua]|].
  - left. split; [reflexivity|]. intros ua [= <-]. reflexivity.
  - destruct (Notice.firstVersion (c :: ua)) as [found|] eqn:E.
    + right. apply firstVersion_Some in E
        as (before & name & digits & rest & Hua & Hrest).
      exists (c :: ua), before, name, digits, rest. tauto.
    + left. split; [reflexivity|]. intros ua' [= <-].
      apply firstVersion_None, E.
  - left. split; [reflexivity|]. discriminate.
Qed.

(** A Chrome user agent also names Safari; Chrome comes first. *)
Example getJsVersion_chrome :
  Notice.getJsVersion
    (Some (js "Mozilla/5.0 (X11; Linux x86_64) AppleWebKit/537.36 (KHTML, like Gecko) Chrome/120.0.0.0 Safari/537.36"))
  = js "Chrome/120".
Proof. vm_compute. reflexivity. Qed.

Lemma getJsVersion_spec_witness :
  Regex.test Notice.BROWSER_VERSION (js "curl/8.4.0") = false.
Proof.
  destruct (getJsVersion_spec (Some (js "curl/8.4.0")))
    as [[_ H]|(ua & before & name & digits & rest & _ & _ & Hin & Hv & _)].
  - apply H. reflexivity.
  - exfalso. vm_compute in Hv. vm_compute in Hin.
    destruct Hin as [<-|[<-|[<-|[<-|[<-|[]]]]]]; discriminate Hv.
Defined.

(** ** client.ts *)

(** A delivery that fails never fails silently: any status other than
    201 and any failure of the request leaves exactly one entry on the
    console, debug logging on or off: a warning for 400, 422 and 429, an
    error for every other status and for a request that failed. *)
Theorem failures_are_logged (this : Client.t) :
  (forall response,
     status response = 400%Z \/ status response = 422%Z \/ status response = 429%Z ->
     exists msg,
       Client.sendViaFetch_settle this (FetchResolved response)
       = (Returned None, [Console ConsoleWarn msg]))
  /\ (forall response,
     status response <> 201%Z -> status response <> 400%Z ->
     status response <> 422%Z -> status response <> 429%Z ->
     exists msg,
       Client.sendViaFetch_settle this (FetchResolved response)
       = (Returned None, [Console ConsoleError msg]))
  /\ (forall e,
     exists msg,
       Client.sendViaFetch_settle this (FetchRejected e)
       = (Returned None, [Console ConsoleError msg])).
Proof.
  split; [|split].
  - intros response H. cbn [Client.sendViaFetch_settle]. unfold Client.handleResponse.
    destruct H as [-> | [-> | ->]]; cbn; eauto.
  - intros response H201 H400 H422 H429.
    cbn [Client.sendViaFetch_settle]. unfold Client.handleResponse.
    destruct (Z.eqb_spec (status response) 201); [contradiction|].
    destruct (Z.eqb_spec (status response) 400); [contradiction|].
    destruct (Z.eqb_spec (status response) 401); [eauto|].
    destruct (Z.eqb_spec (status response) 422); [contradiction|].
    destruct (Z.eqb_spec (status response) 429); [contradiction|].
    destruct (status response >=? 500)%Z; eauto.
  - intros e. cbn [Client.sendViaFetch_settle].
    destruct (Client.is_AbortError e); eauto.
Qed.

Lemma failures_are_logged_witness :
  Client.sendViaFetch_settle (Client.new Examples.config)
    (FetchResolved Examples.rate_limited)
  = (Returned None, [Console ConsoleWarn MsgRateLimited]).
Proof.
  destruct (failures_are_logged (Client.new Examples.config)) as (H & _).
  destruct (H Examples.rate_limited) as (msg & Hmsg).
  - right. right. reflexivity.
  - reflexivity.
Defined.

(** Whenever payloads are waiting, a drain is marked active: along any
    run, a client whose flag is down has an empty queue and nothing in
    flight. So a turn of [flush] never starts a drain of its own, it
    changes nothing; and the configuration of the client stays the one
    it was built with. *)
Theorem idle_means_drained (browser : Browser) (c : Configuration.t)
    (events : list Client.Event) :
  let w := Client.run browser events (Client.init c) in
  (Client.sending (Client.self w) = false ->
   Client.queue (Client.self w) = [] /\ Client.draining w = [])
  /\ (Client.queue (Client.self w) <> [] -> Client.sending (Client.self w) = true)
  /\ Client.flushTurn w = w
  /\ Client.config (Client.self w) = c.
Proof.
  intros w.
  pose proof (run_inv browser events [] _ (init_inv c)) as Hinv. fold w in Hinv.
  destruct Hinv as [_ _ Hactive Hidle _ _].
  split; [|split; [|split]].
  - intros Hs. split; [apply Hidle, Hs|].
    destruct (Client.draining w) eqn:E; [reflexivity|].
    rewrite Hactive in Hs by discriminate. discriminate Hs.
  - intros Hq. destruct (Client.sending (Client.self w)) eqn:Hs; [reflexivity|].
    destruct (Hq (Hidle eq_refl)).
  - unfold Client.flushTurn, Client.processQueue.
    destruct (0 <? _)%nat eqn:El; [|reflexivity].
    destruct (Client.sending (Client.self w)) eqn:Hs; [reflexivity|].
    rewrite (Hidle eq_refl) in El. discriminate El.
  - unfold w. apply (run_config browser events (Client.init c)).
Qed.

Lemma idle_means_drained_witness :
  let w := Client.run Examples.browser
             [Client.Enqueue (Examples.notice "boom");
              Client.Settle 0 (FetchResolved Examples.created)]
             (Client.init Examples.config) in
  Client.queue (Client.self w) = [] /\ Client.draining w = [].
Proof.
  intros w.
  apply (idle_means_drained Examples.browser Examples.config
           [Client.Enqueue (Examples.notice "boom");
            Client.Settle 0 (FetchResolved Examples.created)]).
  reflexivity.
Defined.

Lemma run_snoc browser events e w :
  Client.run browser (events ++ [e]) w
  = Client.step browser e (Client.run browser events w).
Proof. unfold Client.run. rewrite fold_left_app. reflexivity. Qed.

Lemma burst_state browser c first rest :
  (1 <= Configuration.maxQueueSize c)%Z ->
  (Z.of_nat (length rest) <= Configuration.maxQueueSize c)%Z ->
  Client.run browser (map Client.Enqueue (first :: rest)) (Client.init c)
  = {| Client.self :=
         {| Client.config := c;
            Client.queue := map (Notice.toPayload (runtime browser)) rest;
            Client.sending := true |};
       Client.draining := [Notice.toPayload (runtime browser) first];
       Client.trace := [Fetch (Notice.toPayload (runtime browser) first)] |}.
Proof.
  intros Hcap. induction rest as [|x rest IH] using rev_ind; intros Hlen.
  - cbn [map Client.run fold_left Client.step]. unfold Client.queueNotice.
    cbn [Client.init Client.self Client.new Client.queue Client.config length].
    destruct (Z.geb_spec (Z.of_nat 0) (Configuration.maxQueueSize c)) as [H|_];
      [simpl in H; lia|].
    reflexivity.
  - rewrite length_app in Hlen. cbn [length] in Hlen.
    change (first :: rest ++ [x]) with ((first :: rest) ++ [x]).
    rewrite map_app. change (map Client.Enqueue [x]) with [Client.Enqueue x].
    rewrite run_snoc, IH by lia.
    cbn [Client.step]. unfold Client.queueNotice.
    cbn [Client.self Client.queue Client.config]. rewrite length_map.
    destruct (Z.geb_spec (Z.of_nat (length rest)) (Configuration.maxQueueSize c))
      as [H|_]; [lia|].
    rewrite map_app. reflexivity.
Qed.

(** The capacity bounds the payloads that wait, not the one in flight.
    On a fresh client with a capacity of at least one, the first notice
    is posted at once and the notices offered after it wait in order, as
    long as no more than [maxQueueSize] of them wait; with exactly that
    many waiting, the next one is refused. A burst of [maxQueueSize + 1]
    notices is therefore accepted whole. *)
Theorem enqueue_burst (browser : Browser) (c : Configuration.t)
    (first : Notice.t) (rest : list Notice.t) :
  (1 <= Configuration.maxQueueSize c)%Z ->
  (Z.of_nat (length rest) <= Configuration.maxQueueSize c)%Z ->
  let payload := Notice.toPayload (runtime browser) in
  let w := Client.run browser (map Client.Enqueue (first :: rest)) (Client.init c) in
  w = {| Client.self :=
           {| Client.config := c; Client.queue := map payload rest;
              Client.sending := true |};
         Client.draining := [payload first];
         Client.trace := [Fetch (payload first)] |}
  /\ (Z.of_nat (length rest) = Configuration.maxQueueSize c ->
      forall notice, fst (Client.queueNotice browser notice w) = false).
Proof.
  intros Hcap Hlen payload w.
  pose proof (burst_state browser c first rest Hcap Hlen) as Hw. fold w payload in Hw.
  split; [exact Hw|].
  intros Hfull notice. rewrite Hw. unfold Client.queueNotice.
  cbn [Client.self Client.queue Client.config]. unfold payload. rewrite length_map.
  destruct (Z.geb_spec (Z.of_nat (length rest)) (Configuration.maxQueueSize c))
    as [_|H]; [reflexivity|lia].
Qed.

Lemma enqueue_burst_witness :
  let w := Client.run Examples.browser
             (map Client.Enqueue [Examples.notice "P1"; Examples.notice "P2"])
             (Client.init Examples.config_small) in
  Client.queue (Client.self w) = [Notice.toPayload Examples.rt (Examples.notice "P2")]
  /\ fst (Client.queueNotice Examples.browser (Examples.notice "P3") w) = false.
Proof.
  intros w.
  destruct (enqueue_burst Examples.browser Examples.config_small
              (Examples.notice "P1") [Examples.notice "P2"])
    as (Hw & Hfull); [vm_compute; discriminate|vm_compute; discriminate|].
  split.
  - unfold w. rewrite Hw. reflexivity.
  - apply Hfull. reflexivity.
Defined.

Section QuietLog.
Import Client.
Variable browser : Browser.

Lemma log_without_debug c m :
  Configuration.debug c = false -> log c m = [].
Proof. unfold log. intros ->. reflexivity. Qed.

Lemma settle_without_debug this r :
  Configuration.debug (config this) = false ->
  Forall (fun e => is_console_log e = false) (snd (sendViaFetch_settle this r)).
Proof.
  intros Hd. destruct r as [response|e]; cbn [sendViaFetch_settle].
  - unfold handleResponse. destruct (status response =? 201)%Z.
    + destruct (body_json response) as [[]|]; cbn [snd];
        rewrite ?log_without_debug by exact Hd; constructor.
    + cbn [snd]. repeat case_if; repeat constructor.
  - cbn [snd]. destruct (is_AbortError e); repeat constructor.
Qed.

Lemma step_without_debug e w :
  Configuration.debug (config (self w)) = false ->
  Forall (fun e => is_console_log e = false) (trace w) ->
  Forall (fun e => is_console_log e = false) (trace (step browser e w)).
Proof.
  intros Hd Ht. destruct e as [notice| |i r]; cbn [step].
  - unfold queueNotice. case_if; cbn [snd].
    + unfold emit; cbn [trace]. rewrite log_without_debug, app_nil_r by exact Hd.
      exact Ht.
    + unfold processQueue. case_if; [exact Ht|].
      unfold drainLoop, set_self; cbn [self queue trace].
      destruct (queue (self w) ++ _); cbn [trace]; [exact Ht|].
      apply Forall_app. split; [exact Ht|repeat constructor].
  - unfold flushTurn, processQueue. repeat case_if; try exact Ht.
    unfold drainLoop, set_self; cbn [self queue trace].
    destruct (queue (self w)); cbn [trace]; [exact Ht|].
    apply Forall_app. split; [exact Ht|repeat constructor].
  - unfold settle. destruct (draining w !! i); [|exact Ht].
    pose proof (settle_without_debug (self w) r Hd) as Hs.
    destruct (sendViaFetch_settle (self w) r) as [[v|e'] effects]; cbn [snd] in Hs.
    + unfold drainLoop; cbn [self queue trace].
      destruct (queue (self w)); cbn [trace].
      * apply Forall_app. split; assumption.
      * apply Forall_app. split; [apply Forall_app; split; assumption|].
        repeat constructor.
    + cbn [trace]. apply Forall_app. split; assumption.
Qed.

End QuietLog.

(** With [debug] off the client never calls [console.log]: whatever
    happens along a run, and whatever [sendNotice] meets, the console
    only ever gets warnings and errors. *)
Theorem silent_without_debug (browser : Browser) (c : Configuration.t) :
  Configuration.debug c = false ->
  (forall events,
     Forall (fun e => is_console_log e = false)
       (Client.trace (Client.run browser events (Client.init c))))
  /\ (forall this notice,
     Client.config this = c ->
     Forall (fun e => is_console_log e = false)
       (snd (Client.sendNotice browser this notice))).
Proof.
  intros Hd. split.
  - intros events. induction events as [|e events IH] using rev_ind.
    + constructor.
    + rewrite run_snoc. apply step_without_debug; [|exact IH].
      rewrite run_config. exact Hd.
  - intros this notice <-. unfold Client.sendNotice, Client.trySendBeacon.
    pose proof (settle_without_debug this
                  (fetch browser (Notice.toPayload (runtime browser) notice)) Hd) as Hs.
    unfold Client.sendViaFetch.
    destruct (Client.sendViaFetch_settle this _) as [result effects]. cbn [snd] in Hs.
    rewrite !log_without_debug by exact Hd.
    destruct (Configuration.useSendBeacon _);
      [destruct (navigator_sendBeacon browser) as [sendBeacon|];
       [destruct (sendBeacon _) as [[|]|e]|]|];
      simpl; rewrite ?log_without_debug by exact Hd; simpl;
      repeat first [exact Hs | apply Forall_nil_2
                   | apply Forall_cons_2; [reflexivity|]].
Qed.

Lemma silent_without_debug_witness :
  Forall (fun e => is_console_log e = false)
    (Client.trace
       (Client.run Examples.browser
          [Client.Enqueue (Examples.notice "boom");
           Client.Settle 0 (FetchResolved Examples.created)]
          (Client.init Examples.config))).
Proof.
  apply (silent_without_debug Examples.browser Examples.config). reflexivity.
Defined.

(** ** index.ts *)

(** The process-wide context: [setContext] merges, and a key given
    again replaces the earlier value while the other keys stay; two
    calls are one call with the merged argument; the context and the
    user do not touch each other; [clear] empties both. The same holds
    of [setUser]. *)
Theorem context_management (w : Sdk.World) (c1 c2 : Context) :
  (forall key,
     Sdk.getContext (Sdk.setContext c1 w) !! key
     = match c1 !! key with
       | Some v => Some v
       | None => Sdk.getContext w !! key
       end)
  /\ (forall key,
     Sdk.getUser (Sdk.setUser c1 w) !! key
     = match c1 !! key with
       | Some v => Some v
       | None => Sdk.getUser w !! key
       end)
  /\ Sdk.setContext c2 (Sdk.setContext c1 w) = Sdk.setContext (spread c1 c2) w
  /\ Sdk.setUser c2 (Sdk.setUser c1 w) = Sdk.setUser (spread c1 c2) w
  /\ Sdk.getUser (Sdk.setContext c1 w) = Sdk.getUser w
  /\ Sdk.getContext (Sdk.setUser c1 w) = Sdk.getContext w
  /\ Sdk.getContext (Sdk.clear w) = ∅
  /\ Sdk.getUser (Sdk.clear w) = ∅.
Proof.
  unfold Sdk.getContext, Sdk.getUser, Sdk.setContext, Sdk.setUser, Sdk.clear, spread.
  cbn [Sdk.globalContext Sdk.globalUser].
  split; [|split; [|split; [|split; [|split; [|split; [|split]]]]]].
  - intros key. rewrite !(right_id_L ∅ (∪)), lookup_union.
    destruct (c1 !! key), (Sdk.globalContext w !! key); reflexivity.
  - intros key. rewrite !(right_id_L ∅ (∪)), lookup_union.
    destruct (c1 !! key), (Sdk.globalUser w !! key); reflexivity.
  - rewrite (assoc_L (∪)). reflexivity.
  - rewrite (assoc_L (∪)). reflexivity.
  - reflexivity.
  - reflexivity.
  - apply (right_id_L ∅ (∪)).
  - apply (right_id_L ∅ (∪)).
Qed.

Section ConfigureFacts.
Import Sdk.
Variable browser : Browser.

Lemma configure_invalid options w :
  Configuration.isValid (Configuration.new (window browser) options) = false ->
  configure browser options w
  = {| config := Some (Configuration.new (window browser) options);
       client := client w; sanitizeFilter := sanitizeFilter w;
       started := started w; globalContext := globalContext w;
       globalUser := globalUser w; draining := draining w;
       trace := trace w ++ [Console ConsoleWarn MsgInvalidConfiguration] |}.
Proof. intros H. unfold configure. cbv zeta. rewrite H. reflexivity. Qed.

Lemma configure_fresh options :
  Configuration.isValid (Configuration.new (window browser) options) = true ->
  let c := Configuration.new (window browser) options in
  configure browser options initial
  = {| config := Some c; client := Some (Client.new c);
       sanitizeFilter := Some (Configuration.filterKeys c);
       started := true; globalContext := ∅; globalUser := ∅; draining := [];
       trace := if Configuration.debug c
                then [Console ConsoleLog (MsgStarted (Configuration.environment c))]
                else [] |}.
Proof.
  intros H c. unfold configure. cbv zeta. rewrite H. fold c. cbn [negb].
  unfold start, emit, log, initial. cbn [config started trace client sanitizeFilter
    globalContext globalUser draining].
  destruct (Configuration.debug c); reflexivity.
Qed.

End ConfigureFacts.

(** A configuration without an API key (or with an empty endpoint)
    makes the SDK inert, whatever state it was in: [configure] logs one
    warning, keeps the client and the handlers as they were, and from
    then on [notify], [notifySync] and the two handlers do nothing. *)
Theorem configure_invalid_inert (browser : Browser)
    (options : Configuration.ConfigOptions) (w : Sdk.World) :
  Configuration.o_apiKey options = [] \/ Configuration.o_endpoint options = Some [] ->
  let w' := Sdk.configure browser options w in
  Sdk.shouldNotify w' = false
  /\ Sdk.trace w' = Sdk.trace w ++ [Console ConsoleWarn MsgInvalidConfiguration]
  /\ Sdk.client w' = Sdk.client w
  /\ Sdk.started w' = Sdk.started w
  /\ Sdk.draining w' = Sdk.draining w
  /\ forall sanitize,
       (forall error o, Sdk.notify browser sanitize error o w' = w')
       /\ (forall error o,
             Sdk.notifySync browser sanitize error o w' = (Returned None, w'))
       /\ (forall message source lineno colno error,
             Sdk.handleUnhandledError browser sanitize
               message source lineno colno error w' = w')
       /\ (forall reason,
             Sdk.handleUnhandledRejection browser sanitize reason w' = w').
Proof.
  intros Hbad w'.
  assert (Configuration.isValid (Configuration.new (window browser) options) = false)
    as Hinvalid.
  { unfold Configuration.isValid, Configuration.new.
    cbn [Configuration.apiKey Configuration.endpoint].
    apply andb_false_iff. destruct Hbad as [-> | ->]; [left|right]; reflexivity. }
  assert (Sdk.shouldNotify w' = false) as Hno.
  { unfold w'. rewrite configure_invalid by exact Hinvalid.
    unfold Sdk.shouldNotify. cbn [Sdk.config Sdk.client Sdk.started].
    rewrite Hinvalid. destruct (Sdk.client w); [|reflexivity].
    rewrite andb_false_r. reflexivity. }
  split; [exact Hno|].
  unfold w'. rewrite configure_invalid by exact Hinvalid.
  cbn [Sdk.trace Sdk.client Sdk.started Sdk.draining].
  split; [reflexivity|]. split; [reflexivity|]. split; [reflexivity|].
  split; [reflexivity|].
  intros sanitize. rewrite <- (configure_invalid browser options w Hinvalid).
  apply not_enabled_silent. exact Hno.
Qed.

Lemma configure_invalid_inert_witness :
  let w := Sdk.configure Examples.browser Examples.options Sdk.initial in
  let w' :=
    Sdk.configure Examples.browser
      {| Configuration.o_apiKey := [];
         Configuration.o_endpoint := None;
         Configuration.o_environment := None;
         Configuration.o_enabled := None;
         Configuration.o_timeout := None;
         Configuration.o_ignoredExceptions := None;
         Configuration.o_filterKeys := None;
         Configuration.o_beforeNotify := None;
         Configuration.o_debug := None;
         Configuration.o_captureUnhandled := None;
         Configuration.o_captureUnhandledRejections := None;
         Configuration.o_maxQueueSize := None;
         Configuration.o_useSendBeacon := None |} w in
  Sdk.shouldNotify w = true /\ Sdk.shouldNotify w' = false.
Proof.
  intros w w'. split; [reflexivity|].
  apply (configure_invalid_inert Examples.browser _ w). left. reflexivity.
Defined.

(** An explicit [enabled], given as an option or set afterwards,
    overrides the environment both ways: with [enabled: true] and a
    valid key the SDK reports even on localhost; with [enabled: false]
    it reports nothing even in production. The setter changes nothing
    else about the configuration. *)
Theorem explicit_enabled_overrides (browser : Browser)
    (options : Configuration.ConfigOptions) (value : bool) :
  Configuration.o_enabled options = Some value ->
  let c := Configuration.new (window browser) options in
  Configuration.enabled c = value
  /\ (forall c', Configuration.enabled (Configuration.set_enabled value c') = value
                 /\ Configuration.isValid (Configuration.set_enabled value c')
                    = Configuration.isValid c'
                 /\ Configuration.environment (Configuration.set_enabled value c')
                    = Configuration.environment c'
                 /\ forall a b,
                      Configuration.shouldIgnore (Configuration.set_enabled value c') a b
                      = Configuration.shouldIgnore c' a b)
  /\ (Configuration.isValid c = true ->
      Sdk.shouldNotify (Sdk.configure browser options Sdk.initial) = value).
Proof.
  intros Hopt c. split; [|split].
  - unfold c, Configuration.enabled, Configuration.new.
    cbn [Configuration._enabled]. rewrite Hopt. reflexivity.
  - intros c'. repeat split.
  - intros Hvalid. rewrite configure_fresh by exact Hvalid. fold c.
    unfold Sdk.shouldNotify. cbn [Sdk.config Sdk.client Sdk.started].
    rewrite Hvalid. cbn [andb].
    unfold c, Configuration.enabled, Configuration.new.
    cbn [Configuration._enabled]. rewrite Hopt. reflexivity.
Qed.

Lemma explicit_enabled_overrides_witness :
  Sdk.shouldNotify
    (Sdk.configure Examples.browser_local
       {| Configuration.o_apiKey := js "test-key";
          Configuration.o_endpoint := None;
          Configuration.o_environment := None;
          Configuration.o_enabled := Some true;
          Configuration.o_timeout := None;
          Configuration.o_ignoredExceptions := None;
          Configuration.o_filterKeys := None;
          Configuration.o_beforeNotify := None;
          Configuration.o_debug := None;
          Configuration.o_captureUnhandled := None;
          Configuration.o_captureUnhandledRejections := None;
          Configuration.o_maxQueueSize := None;
          Configuration.o_useSendBeacon := None |}
       Sdk.initial)
  = true.
Proof.
  match goal with |- Sdk.shouldNotify (Sdk.configure ?b ?o _) = _ =>
    apply (explicit_enabled_overrides b o true) end; reflexivity.
Defined.

(** The first report after [configure]: with a valid configuration that
    is enabled, registers no callback and has room for one payload, an
    error that the ignore-list does not match is posted at once, and only
    once, by the confirmable transport. The payload carries the class
    and the message of the error with their defaults, the tags of the
    call, the environment of the configuration under
    [context.environment], and the name of the notifier. *)
Theorem configure_then_notify (browser : Browser)
    (sanitize : list jsstring -> Context -> Context)
    (options : Configuration.ConfigOptions) (error : JsError)
    (o : Sdk.NotifyOptions) :
  let c := Configuration.new (window browser) options in
  Configuration.isValid c = true ->
  Configuration.enabled c = true ->
  Configuration.beforeNotify c = [] ->
  (1 <= Configuration.maxQueueSize c)%Z ->
  Configuration.shouldIgnore c (str_or (err_name error) (js "Error"))
    (str_or (err_message error) (js "Unknown error")) = false ->
  let w :=
    Sdk.notify browser sanitize error o
      (Sdk.configure browser options Sdk.initial) in
  exists payload,
    fetched (Sdk.trace w) = [payload]
    /\ beaconed (Sdk.trace w) = []
    /\ Sdk.draining w = [payload]
    /\ Notice.p_class (Notice.p_error payload) = str_or (err_name error) (js "Error")
    /\ Notice.p_message (Notice.p_error payload)
       = Notice.truncateMessage (str_or (err_message error) (js "Unknown error"))
    /\ Notice.p_tags (Notice.p_error payload)
       = match Sdk.o_tags o with
         | Some (_ :: _) => Sdk.o_tags o
         | _ => None
         end
    /\ (Configuration.environment c <> [] ->
        Notice.p_context payload !! js "environment"
        = Some (JStr (Configuration.environment c)))
    /\ Notice.name (Notice.p_notifier payload) = js "@checkend/browser".
Proof.
  intros c Hvalid Henabled Hcbs Hcap Hignore w.
  set (w0 := Sdk.configure browser options Sdk.initial).
  assert (w0 = {| Sdk.config := Some c; Sdk.client := Some (Client.new c);
                  Sdk.sanitizeFilter := Some (Configuration.filterKeys c);
                  Sdk.started := true; Sdk.globalContext := ∅;
                  Sdk.globalUser := ∅; Sdk.draining := [];
                  Sdk.trace :=
                    if Configuration.debug c
                    then [Console ConsoleLog (MsgStarted (Configuration.environment c))]
                    else [] |}) as Hw0
    by (apply configure_fresh; exact Hvalid).
  set (notice := Sdk.buildNotice browser sanitize c w0 error o).
  exists (Notice.toPayload (runtime browser) notice).
  assert (w = {| Sdk.config := Some c;
                 Sdk.client :=
                   Some {| Client.config := c; Client.queue := [];
                           Client.sending := true |};
                 Sdk.sanitizeFilter := Some (Configuration.filterKeys c);
                 Sdk.started := true; Sdk.globalContext := ∅;
                 Sdk.globalUser := ∅;
                 Sdk.draining := [Notice.toPayload (runtime browser) notice];
                 Sdk.trace :=
                   ((if Configuration.debug c
                     then [Console ConsoleLog
                             (MsgStarted (Configuration.environment c))]
                     else []) ++ [])
                   ++ [Fetch (Notice.toPayload (runtime browser) notice)] |}) as Hw.
  { unfold w, Sdk.notify. fold w0.
    assert (Sdk.shouldNotify w0 = true) as ->.
    { rewrite Hw0. unfold Sdk.shouldNotify. cbn [Sdk.config Sdk.client Sdk.started].
      rewrite Hvalid, Henabled. reflexivity. }
    cbn [negb].
    assert (Sdk.config w0 = Some c) as Hc by (rewrite Hw0; reflexivity).
    rewrite Hc, Hignore. fold notice.
    unfold Sdk.deliverQueued, Sdk.runBeforeNotifyCallbacks.
    rewrite Hc, Hcbs. cbn [Sdk.runCallbacks negb].
    unfold Sdk.with_client, Sdk.emit. cbn [Sdk.client Sdk.draining Sdk.trace].
    generalize notice. intros n. rewrite Hw0.
    cbn [Sdk.client Sdk.draining Sdk.trace Sdk.config Sdk.sanitizeFilter
         Sdk.started Sdk.globalContext Sdk.globalUser].
    unfold Client.queueNotice.
    cbn [Client.self Client.queue Client.new Client.config length].
    destruct (Z.geb_spec (Z.of_nat 0) (Configuration.maxQueueSize c)) as [H|_];
      [change (Z.of_nat 0) with 0%Z in H; lia|].
    reflexivity. }
  rewrite Hw. cbn [Sdk.trace Sdk.draining].
  rewrite !fetched_app, !beaconed_app.
  assert (quiet (if Configuration.debug c
                 then [Console ConsoleLog (MsgStarted (Configuration.environment c))]
                 else [])) as [-> ->]
    by (destruct (Configuration.debug c); split; reflexivity).
  split; [reflexivity|]. split; [reflexivity|]. split; [reflexivity|].
  split; [reflexivity|]. split; [reflexivity|]. split.
  { unfold notice, Sdk.buildNotice, Notice.createNotice, Notice.toPayload.
    cbn [Notice.p_tags Notice.p_error Notice.tags Notice.o_tags].
    destruct (Sdk.o_tags o) as [[|t ts]|]; reflexivity. }
  split; [|reflexivity].
  intros Henv.
  rewrite (toPayload_environment (runtime browser) notice
             (Configuration.environment c) eq_refl Henv).
  apply lookup_insert_eq.
Qed.

Lemma configure_then_notify_witness :
  let w :=
    Sdk.notify Examples.browser Examples.no_filter Examples.boom Sdk.no_options
      (Sdk.configure Examples.browser Examples.options Sdk.initial) in
  exists payload,
    fetched (Sdk.trace w) = [payload]
    /\ Notice.p_message (Notice.p_error payload) = js "boom".
Proof.
  intros w.
  destruct (configure_then_notify Examples.browser Examples.no_filter
              Examples.options Examples.boom Sdk.no_options)
    as (payload & Hf & _ & _ & _ & Hm & _);
    [reflexivity|reflexivity|reflexivity|vm_compute; discriminate|reflexivity|].
  exists payload. split; [exact Hf|exact Hm].
Defined.

Lemma deliverQueued_fresh (browser : Browser)
    (options : Configuration.ConfigOptions) (notice : Notice.t) :
  let c := Configuration.new (window browser) options in
  Configuration.isValid c = true ->
  Configuration.beforeNotify c = [] ->
  (1 <= Configuration.maxQueueSize c)%Z ->
  let w := Sdk.deliverQueued browser (Sdk.configure browser options Sdk.initial) notice in
  fetched (Sdk.trace w) = [Notice.toPayload (runtime browser) notice]
  /\ beaconed (Sdk.trace w) = []
  /\ Sdk.draining w = [Notice.toPayload (runtime browser) notice].
Proof.
  intros c Hvalid Hcbs Hcap w. unfold w.
  rewrite (configure_fresh browser options Hvalid). fold c.
  unfold Sdk.deliverQueued, Sdk.runBeforeNotifyCallbacks.
  cbn [Sdk.config]. rewrite Hcbs. cbn [Sdk.runCallbacks negb].
  unfold Sdk.with_client, Sdk.emit. cbn [Sdk.client Sdk.draining Sdk.trace].
  unfold Client.queueNotice.
  cbn [Client.self Client.queue Client.new Client.config length].
  destruct (Z.geb_spec (Z.of_nat 0) (Configuration.maxQueueSize c)) as [H|_];
    [change (Z.of_nat 0) with 0%Z in H; lia|].
  cbn [snd fst Sdk.trace Sdk.draining].
  set (t0 := if Configuration.debug c
             then [Console ConsoleLog (MsgStarted (Configuration.environment c))]
             else []).
  assert (quiet t0) as [Hf Hb]
    by (unfold t0; destruct (Configuration.debug c); split; reflexivity).
  clearbody t0. unfold Client.processQueue, Client.set_self, Client.drainLoop.
  cbn [Client.self Client.sending Client.queue Client.new Client.trace
       Client.draining app negb orb].
  change (length [Notice.toPayload (runtime browser) notice] =? 0)%nat with false.
  cbn [Client.trace Client.draining].
  rewrite !fetched_app, !beaconed_app, Hf, Hb. repeat split; reflexivity.
Qed.

(** What the two [window] handlers report, right after [configure]
    with a valid, enabled configuration without callbacks and with room
    for one payload. An uncaught error is tried against the ignore-list
    under the name of its error object as it is ([Error] only when
    there is no object) and the raw message; a rejection under the name
    and message of its reason, or under [UnhandledRejection] and the
    string, or a fixed message, when the reason is no error. An ignored
    event changes nothing and logs nothing. Any other is posted at
    once, only once, tagged [unhandled] (and [promise-rejection]), with
    the class defaulting to [Error]; the message of an uncaught error
    is only truncated, that of a rejection defaults to
    [Unknown error]. *)
Theorem unhandled_reports (browser : Browser)
    (sanitize : list jsstring -> Context -> Context)
    (options : Configuration.ConfigOptions) :
  let c := Configuration.new (window browser) options in
  Configuration.isValid c = true ->
  Configuration.enabled c = true ->
  Configuration.beforeNotify c = [] ->
  (1 <= Configuration.maxQueueSize c)%Z ->
  let w0 := Sdk.configure browser options Sdk.initial in
  (forall message source lineno colno error,
     let name := match error with Some e => err_name e | None => js "Error" end in
     let w :=
       Sdk.handleUnhandledError browser sanitize
         message source lineno colno error w0 in
     if Configuration.shouldIgnore c name message then w = w0
     else
       exists payload,
         fetched (Sdk.trace w) = [payload]
         /\ beaconed (Sdk.trace w) = []
         /\ Notice.p_class (Notice.p_error payload) = str_or name (js "Error")
         /\ Notice.p_message (Notice.p_error payload)
            = Notice.truncateMessage message
         /\ Notice.p_tags (Notice.p_error payload) = Some [js "unhandled"])
  /\ (forall reason,
     let error :=
       match reason with
       | Sdk.ReasonError e => (err_name e, err_message e)
       | Sdk.ReasonString s => (js "UnhandledRejection", s)
       | Sdk.ReasonOther _ =>
           (js "UnhandledRejection", js "Unhandled Promise rejection")
       end in
     let w := Sdk.handleUnhandledRejection browser sanitize reason w0 in
     if Configuration.shouldIgnore c (fst error) (snd error) then w = w0
     else
       exists payload,
         fetched (Sdk.trace w) = [payload]
         /\ beaconed (Sdk.trace w) = []
         /\ Notice.p_class (Notice.p_error payload)
            = str_or (fst error) (js "Error")
         /\ Notice.p_message (Notice.p_error payload)
            = Notice.truncateMessage (str_or (snd error) (js "Unknown error"))
         /\ Notice.p_tags (Notice.p_error payload)
            = Some [js "unhandled"; js "promise-rejection"]).
Proof.
  intros c Hvalid Henabled Hcbs Hcap w0.
  assert (Sdk.shouldNotify w0 = true) as Hshould.
  { unfold w0. rewrite (configure_fresh browser options Hvalid). fold c.
    unfold Sdk.shouldNotify. cbn [Sdk.config Sdk.client Sdk.started].
    rewrite Hvalid, Henabled. reflexivity. }
  assert (Sdk.config w0 = Some c) as Hc
    by (unfold w0; rewrite (configure_fresh browser options Hvalid); reflexivity).
  split.
  - intros message source lineno colno error name w.
    unfold w, Sdk.handleUnhandledError. rewrite Hshould, Hc. cbn [negb].
    fold name. destruct (Configuration.shouldIgnore c name message); [reflexivity|].
    match goal with |- context [Sdk.deliverQueued _ _ ?n] => set (notice := n) end.
    destruct (deliverQueued_fresh browser options notice Hvalid Hcbs Hcap)
      as (Hf & Hb & _).
    exists (Notice.toPayload (runtime browser) notice).
    split; [exact Hf|]. split; [exact Hb|].
    unfold notice, name, Notice.createNoticeFromRaw.
    destruct error as [e|]; [|destruct source as [[|x source]|]];
      repeat split; reflexivity.
  - intros reason error w.
    unfold w, Sdk.handleUnhandledRejection. rewrite Hshould, Hc. cbn [negb].
    assert (Configuration.shouldIgnore c (fst error) (snd error)
            = Configuration.shouldIgnore c
                (err_name match reason with
                          | Sdk.ReasonError e => e
                          | Sdk.ReasonString s => mkError (js "UnhandledRejection") s None
                          | Sdk.ReasonOther _ =>
                              mkError (js "UnhandledRejection")
                                (js "Unhandled Promise rejection") None
                          end)
                (err_message match reason with
                          | Sdk.ReasonError e => e
                          | Sdk.ReasonString s => mkError (js "UnhandledRejection") s None
                          | Sdk.ReasonOther _ =>
                              mkError (js "UnhandledRejection")
                                (js "Unhandled Promise rejection") None
                          end)) as <-
      by (unfold error; destruct reason; reflexivity).
    destruct (Configuration.shouldIgnore c (fst error) (snd error)); [reflexivity|].
    match goal with |- context [Sdk.deliverQueued _ _ ?n] => set (notice := n) end.
    destruct (deliverQueued_fresh browser options notice Hvalid Hcbs Hcap)
      as (Hf & Hb & _).
    exists (Notice.toPayload (runtime browser) notice).
    split; [exact Hf|]. split; [exact Hb|].
    unfold notice, error. destruct reason; repeat split; reflexivity.
Qed.

Lemma unhandled_reports_witness :
  let w :=
    Sdk.handleUnhandledRejection Examples.browser Examples.no_filter
      (Sdk.ReasonString [])
      (Sdk.configure Examples.browser Examples.options Sdk.initial) in
  exists payload,
    fetched (Sdk.trace w) = [payload]
    /\ Notice.p_class (Notice.p_error payload) = js "UnhandledRejection"
    /\ Notice.p_message (Notice.p_error payload) = js "Unknown error".
Proof.
  intros w.
  destruct (unhandled_reports Examples.browser Examples.no_filter Examples.options)
    as [_ H]; [reflexivity|reflexivity|reflexivity|vm_compute; discriminate|].
  specialize (H (Sdk.ReasonString [])). cbv zeta in H.
  match type of H with
  | if ?b then _ else _ => change b with false in H
  end.
  destruct H as (payload & Hf & _ & Hc & Hm & _).
  exists payload. split; [exact Hf|]. split; [exact Hc|exact Hm].
Defined.

(** ** index.ts: installing and removing the handlers *)

(** [stop] after [start] on a page, both slots having no saved original:
    a handler the page had set is put back; a slot that was empty and
    was captured keeps the handler of the SDK, because the saved
    original is null and nothing is restored; a slot that was not
    captured is untouched. After that, a second [start] saves the
    handler of the SDK as the original of an empty captured slot, so the
    installed handler chains to itself. Without a window nothing
    changes. *)
Theorem handlers_stop_after_start (H : Type) (c : Configuration.t)
    (s : Handlers.t H) :
  Handlers.originalOnError s = None ->
  Handlers.originalOnUnhandledRejection s = None ->
  let stopped := Handlers.on_stop true (Handlers.on_start c true s) in
  let restarted := Handlers.on_start c true stopped in
  (forall h, Handlers.onerror s = Some h ->
     Handlers.onerror stopped = Some h /\ Handlers.originalOnError stopped = None)
  /\ (forall h, Handlers.onunhandledrejection s = Some h ->
     Handlers.onunhandledrejection stopped = Some h
     /\ Handlers.originalOnUnhandledRejection stopped = None)
  /\ (Handlers.onerror s = None ->
      Handlers.onerror stopped
      = (if Configuration.captureUnhandled c then Some Handlers.OfSdk else None)
      /\ (Configuration.captureUnhandled c = true ->
          Handlers.onerror restarted = Some Handlers.OfSdk
          /\ Handlers.originalOnError restarted = Some Handlers.OfSdk))
  /\ (Handlers.onunhandledrejection s = None ->
      Handlers.onunhandledrejection stopped
      = (if Configuration.captureUnhandledRejections c
         then Some Handlers.OfSdk else None)
      /\ (Configuration.captureUnhandledRejections c = true ->
          Handlers.onunhandledrejection restarted = Some Handlers.OfSdk
          /\ Handlers.originalOnUnhandledRejection restarted = Some Handlers.OfSdk))
  /\ Handlers.on_stop false (Handlers.on_start c false s) = s.
Proof.
  intros Ho1 Ho2 stopped restarted.
  unfold restarted, stopped, Handlers.on_stop, Handlers.on_start,
    Handlers.installErrorHandler, Handlers.uninstallErrorHandler,
    Handlers.installRejectionHandler, Handlers.uninstallRejectionHandler.
  destruct s as [e oe r or]. cbn in Ho1, Ho2. subst oe or.
  destruct (Configuration.captureUnhandled c),
    (Configuration.captureUnhandledRejections c), e as [e|], r as [r|];
    cbn; repeat split; try discriminate; try congruence.
Qed.

Lemma handlers_stop_after_start_witness :
  let s : Handlers.t nat :=
    {| Handlers.onerror := Some (Handlers.OfPage 7);
       Handlers.originalOnError := None;
       Handlers.onunhandledrejection := None;
       Handlers.originalOnUnhandledRejection := None |} in
  let stopped := Handlers.on_stop true (Handlers.on_start Examples.config true s) in
  Handlers.onerror stopped = Some (Handlers.OfPage 7)
  /\ Handlers.onunhandledrejection stopped = Some Handlers.OfSdk.
Proof.
  intros s stopped.
  destruct (handlers_stop_after_start nat Examples.config s eq_refl eq_refl)
    as (He & _ & _ & Hr & _).
  split.
  - exact (proj1 (He (Handlers.OfPage 7) eq_refl)).
  - exact (proj1 (Hr eq_refl)).
Defined.

(** ** testing.ts *)

Section TestingFacts.
Import Testing.
Variables F B : Type.

Lemma ingestUrl_intercepted (c : Configuration.t) (suffix : jsstring) :
  includes (js "/ingest/v1/errors") (Configuration.ingestUrl c ++ suffix) = true.
Proof.
  apply includes_spec. exists (Configuration.endpoint c), suffix.
  unfold Configuration.ingestUrl. rewrite <- app_assoc. reflexivity.
Qed.

End TestingFacts.

(** Test mode is entered once and left once. A second [setup] changes
    nothing: the notices captured so far are kept and the saved
    originals are not overwritten by the mocks. [teardown] outside test
    mode changes nothing. From a state outside test mode with nothing
    saved, [setup] followed by [teardown] puts [fetch] and [sendBeacon]
    back as they were, with no notice kept; during test mode each of the
    two is the mock exactly when it was defined before. *)
Theorem setup_teardown (F B : Type) (s : Testing.State F B) :
  Testing.setup (Testing.setup s) = Testing.setup s
  /\ Testing.teardown (Testing.teardown s) = Testing.teardown s
  /\ (Testing.isSetup s = false ->
      Testing.originalFetch s = None -> Testing.originalSendBeacon s = None ->
      Testing.teardown (Testing.setup s)
      = {| Testing.notices := []; Testing.originalFetch := None;
           Testing.originalSendBeacon := None; Testing.isSetup := false;
           Testing.global_fetch := Testing.global_fetch s;
           Testing.navigator := Testing.navigator s |}
      /\ (Testing.global_fetch (Testing.setup s) = Some Testing.Mock
          <-> Testing.global_fetch s <> None)
      /\ (Testing.navigator (Testing.setup s) = Some (Some Testing.Mock)
          <-> exists b, Testing.navigator s = Some (Some b))).
Proof.
  split; [|split].
  - unfold Testing.setup. destruct (Testing.isSetup s) eqn:E; [rewrite E|]; reflexivity.
  - unfold Testing.teardown.
    destruct (Testing.isSetup s) eqn:E; cbn [negb]; [|rewrite E]; reflexivity.
  - intros Hs Hf Hb. unfold Testing.teardown, Testing.setup. rewrite Hs.
    destruct s as [ns ofe obe st gf nav]. cbn in Hs, Hf, Hb. subst.
    split; [|split].
    + destruct gf as [f|], nav as [[b|]|]; reflexivity.
    + cbn. destruct gf; split; congruence.
    + cbn. destruct nav as [[b|]|]; split; try congruence; eauto.
      * intros (b & [=]).
      * intros (b & [=]).
Qed.

Lemma setup_teardown_witness :
  let s : Testing.State nat nat :=
    {| Testing.notices := []; Testing.originalFetch := None;
       Testing.originalSendBeacon := None; Testing.isSetup := false;
       Testing.global_fetch := Some (Testing.Native 1);
       Testing.navigator := Some (Some (Testing.Native 2)) |} in
  Testing.global_fetch (Testing.setup s) = Some Testing.Mock
  /\ Testing.teardown (Testing.setup s) = s.
Proof.
  intros s.
  destruct (setup_teardown nat nat s) as (_ & _ & H).
  destruct (H eq_refl eq_refl eq_refl) as (Hround & Hmock & _).
  split; [apply Hmock; discriminate|exact Hround].
Defined.

(** The mock of [fetch] recognises every request of the SDK, whatever
    the endpoint: on the ingest URL of any configuration a readable
    payload is captured as the last notice and the answer is a 201 whose
    [id] and [problem_id] are the number of notices captured so far; a
    missing or unreadable body is answered the same way and captures
    nothing. Any other URL leaves the notices alone and goes to the
    saved [fetch], or fails when none was saved. *)
Theorem mockFetch_intercepts (F B : Type) (c : Configuration.t)
    (s : Testing.State F B) :
  (forall payload,
     let '(result, s') :=
       Testing.mockFetch (Configuration.ingestUrl c) (Testing.Readable payload) s in
     result = Testing.Created (Testing.noticeCount s + 1) (Testing.noticeCount s + 1)
     /\ Testing.getNotices s' = Testing.getNotices s ++ [Testing.toCaptured payload]
     /\ Testing.getLastNotice s' = Some (Testing.toCaptured payload)
     /\ Testing.hasNotices s' = true
     /\ Testing.noticeCount s' = (Testing.noticeCount s + 1)%Z)
  /\ (forall body,
     body = Testing.NoBody \/ body = Testing.Unreadable ->
     Testing.mockFetch (Configuration.ingestUrl c) body s
     = (Testing.Created (Testing.noticeCount s) (Testing.noticeCount s), s))
  /\ (forall url body,
     includes (js "/ingest/v1/errors") url = false ->
     Testing.mockFetch url body s
     = (match Testing.originalFetch s with
        | Some original => Testing.Delegated original
        | None => Testing.NotAvailable
        end, s)).
Proof.
  pose proof (ingestUrl_intercepted c []) as Hurl. rewrite app_nil_r in Hurl.
  split; [|split].
  - intros payload. unfold Testing.mockFetch. rewrite Hurl.
    unfold Testing.captureFromPayload, Testing.noticeCount, Testing.getNotices,
      Testing.getLastNotice, Testing.hasNotices.
    cbn [Testing.notices]. rewrite length_app, last_snoc. cbn [length].
    repeat split.
    + f_equal; lia.
    + apply Nat.ltb_lt. lia.
    + lia.
  - intros body [-> | ->]; unfold Testing.mockFetch; rewrite Hurl; reflexivity.
  - intros url body Hurl'. unfold Testing.mockFetch. rewrite Hurl'.
    destruct (Testing.originalFetch s); reflexivity.
Qed.

Lemma mockFetch_intercepts_witness :
  let s : Testing.State nat nat :=
    Testing.setup
      {| Testing.notices := []; Testing.originalFetch := None;
         Testing.originalSendBeacon := None; Testing.isSetup := false;
         Testing.global_fetch := Some (Testing.Native 1);
         Testing.navigator := None |} in
  Testing.mockFetch (js "https://example.org/other") Testing.NoBody s
  = (Testing.Delegated (Testing.Native 1), s).
Proof.
  intros s.
  destruct (mockFetch_intercepts nat nat Examples.config s) as (_ & _ & H).
  apply (H (js "https://example.org/other") Testing.NoBody). reflexivity.
Defined.

(** The mock of [sendBeacon] accepts every beacon of the SDK and
    captures none of them: the SDK posts a Blob, to its ingest URL with
    the key in the query, and a Blob is accepted unread. A beacon to any
    other URL goes to the saved [sendBeacon], or is declined when none
    was saved. *)
Theorem mockSendBeacon_blob (F B : Type) (c : Configuration.t)
    (query : jsstring) (s : Testing.State F B) :
  Testing.mockSendBeacon (Configuration.ingestUrl c ++ query) Testing.BlobData s
  = (Testing.Answered true, s)
  /\ (forall payload,
      Testing.mockSendBeacon (Configuration.ingestUrl c ++ query)
        (Testing.OtherData (Some payload)) s
      = (Testing.Answered true, Testing.captureFromPayload payload s))
  /\ (forall url data,
      includes (js "/ingest/v1/errors") url = false ->
      Testing.mockSendBeacon url data s
      = (match Testing.originalSendBeacon s with
         | Some original => Testing.DelegatedBeacon original
         | None => Testing.Answered false
         end, s)).
Proof.
  pose proof (ingestUrl_intercepted c query) as Hurl.
  split; [|split].
  - unfold Testing.mockSendBeacon. rewrite Hurl. reflexivity.
  - intros payload. unfold Testing.mockSendBeacon. rewrite Hurl. reflexivity.
  - intros url data Hurl'. unfold Testing.mockSendBeacon. rewrite Hurl'.
    destruct (Testing.originalSendBeacon s); reflexivity.
Qed.

Lemma mockSendBeacon_blob_witness :
  let s : Testing.State nat nat :=
    {| Testing.notices := []; Testing.originalFetch := None;
       Testing.originalSendBeacon := None; Testing.isSetup := true;
       Testing.global_fetch := None; Testing.navigator := None |} in
  Testing.mockSendBeacon (js "https://example.org/collect") Testing.BlobData s
  = (Testing.Answered false, s).
Proof.
  intros s.
  destruct (mockSendBeacon_blob nat nat Examples.config [] s) as (_ & _ & H).
  apply (H (js "https://example.org/collect") Testing.BlobData). reflexivity.
Defined.

(** What test mode captures is the notice that was sent: the notice
    rebuilt from the payload of a notice has the same class, message,
    backtrace, fingerprint, tags, request, user and time. With a
    non-empty environment, the captured environment is that string and
    the captured context is the context with [environment] set to it;
    with none, the context is the same and the captured environment is
    whatever the context holds under [environment]. *)
Theorem capture_round_trip (rt : Notice.Runtime) (n : Notice.t) :
  let captured := Testing.toCaptured (Notice.toPayload rt n) in
  Testing.errorClass captured = Notice.errorClass n
  /\ Testing.message captured = Notice.message n
  /\ Testing.backtrace captured = Notice.backtrace n
  /\ Testing.fingerprint captured = Notice.fingerprint n
  /\ Testing.tags captured = Notice.tags n
  /\ Testing.request captured = Notice.request n
  /\ Testing.user captured = Notice.user n
  /\ Testing.occurredAt captured = Notice.occurredAt n
  /\ (forall env,
      Notice.environment n = Some env -> env <> [] ->
      Testing.environment captured = Some (JStr env)
      /\ Testing.context captured
         = <[ js "environment" := JStr env ]> (Notice.context n))
  /\ (Notice.environment n = None \/ Notice.environment n = Some [] ->
      Testing.context captured = Notice.context n
      /\ Testing.environment captured = Notice.context n !! js "environment").
Proof.
  intros captured. unfold captured, Testing.toCaptured, Notice.toPayload.
  cbn [Testing.errorClass Testing.message Testing.backtrace Testing.fingerprint
       Testing.tags Testing.request Testing.user Testing.occurredAt
       Testing.environment Testing.context
       Notice.p_error Notice.p_class Notice.p_message Notice.p_backtrace
       Notice.p_fingerprint Notice.p_tags Notice.p_occurred_at Notice.p_context
       Notice.p_request Notice.p_user].
  repeat (split; [reflexivity|]).
  split; [destruct (Notice.tags n); reflexivity|].
  repeat (split; [reflexivity|]).
  split.
  - intros env He Hne.
    pose proof (toPayload_environment rt n env He Hne) as Hc.
    unfold Notice.toPayload in Hc. cbn [Notice.p_context] in Hc. rewrite Hc.
    split; [apply lookup_insert_eq|reflexivity].
  - unfold spread.
    intros [-> | ->]; rewrite (left_id_L ∅ (∪)); split; reflexivity.
Qed.

Lemma capture_round_trip_witness :
  let n :=
    Notice.createNotice Examples.rt Examples.boom
      {| Notice.o_context := None; Notice.o_request := None;
         Notice.o_user := None; Notice.o_fingerprint := None;
         Notice.o_tags := None;
         Notice.o_environment := Some (js "production") |} in
  Testing.environment (Testing.toCaptured (Notice.toPayload Examples.rt n))
  = Some (JStr (js "production")).
Proof.
  intros n.
  destruct (capture_round_trip Examples.rt n)
    as (_ & _ & _ & _ & _ & _ & _ & _ & H & _).
  apply (H (js "production")); [reflexivity|discriminate].
Defined.
